(** * gopherburrow/mux: the routing table, its comparators and its query routes

    A shallow embedding of [mux.go] and [utils.go].  Go's [int] is [Z] (the
    lengths compared here are far from the 64-bit bounds), slice indexes are
    [nat], strings are byte strings ([String.string], compared byte by byte as
    Go does), [map[string]int] and [map[string]string] are [gmap]s, and
    [url.Values] is an association list whose order stands for the order in
    which [range] happens to visit the map.  The reader/writer lock is left
    out: every operation is modelled as one atomic step on the table. *)

From Stdlib Require Import ZArith String Ascii Lia Sorted Permutation.
From stdpp Require Import base option list gmap strings sorting.

Local Open Scope Z_scope.

(** ** Go's [strings] package, as far as the router uses it *)

Module GoStrings.

(** [strings.Compare]: -1, 0 or +1, bytes compared as unsigned numbers. *)
Definition Compare (a b : string) : Z :=
  match String.compare a b with
  | Lt => -1
  | Eq => 0
  | Gt => 1
  end.

(** The operators [<] and [>] on strings. *)
Definition lt (a b : string) : bool := String.ltb a b.
Definition gt (a b : string) : bool := String.ltb b a.

Definition HasPrefix (s prefix : string) : bool := String.prefix prefix s.

Fixpoint HasSuffix (s suffix : string) : bool :=
  if String.eqb s suffix then true
  else match s with
       | EmptyString => false
       | String _ s' => HasSuffix s' suffix
       end.

Fixpoint inCutset (c : ascii) (cutset : string) : bool :=
  match cutset with
  | EmptyString => false
  | String d cutset' => Ascii.eqb c d || inCutset c cutset'
  end.

Fixpoint TrimLeft (s cutset : string) : string :=
  match s with
  | EmptyString => EmptyString
  | String c s' => if inCutset c cutset then TrimLeft s' cutset else s
  end.

Fixpoint TrimRight (s cutset : string) : string :=
  match s with
  | EmptyString => EmptyString
  | String c s' =>
      match TrimRight s' cutset with
      | EmptyString => if inCutset c cutset then EmptyString else String c EmptyString
      | t => String c t
      end
  end.

Definition Trim (s cutset : string) : string :=
  TrimRight (TrimLeft s cutset) cutset.

(** The encodings of the runes for which [unicode.IsSpace] holds: the six
    ASCII ones, U+0085, U+00A0, U+1680, U+2000..U+200A, U+2028, U+2029,
    U+202F, U+205F and U+3000. *)
Definition bytes (l : list nat) : string :=
  string_of_list_ascii (map ascii_of_nat l).

Definition spaceRunes : list string :=
  map bytes
    ([ [9]; [10]; [11]; [12]; [13]; [32]; [194; 133]; [194; 160]; [225; 154; 128] ]
     ++ map (fun b => [226; 128; b]) (seq 128 11)
     ++ [ [226; 128; 168]; [226; 128; 169]; [226; 128; 175]; [226; 129; 159];
          [227; 128; 128] ])%nat%list.

Definition dropSpacePrefix (s : string) : option string :=
  head (omap (fun sp => if String.prefix sp s
                        then Some (String.substring (String.length sp)
                                     (String.length s - String.length sp) s)
                        else None) spaceRunes).

Definition dropSpaceSuffix (s : string) : option string :=
  head (omap (fun sp => if HasSuffix s sp
                        then Some (String.substring 0
                                     (String.length s - String.length sp) s)
                        else None) spaceRunes).

Fixpoint trimSpaceLeft (fuel : nat) (s : string) : string :=
  match fuel with
  | O => s
  | S fuel' => match dropSpacePrefix s with
               | Some s' => trimSpaceLeft fuel' s'
               | None => s
               end
  end.

Fixpoint trimSpaceRight (fuel : nat) (s : string) : string :=
  match fuel with
  | O => s
  | S fuel' => match dropSpaceSuffix s with
               | Some s' => trimSpaceRight fuel' s'
               | None => s
               end
  end.

(** [strings.TrimSpace]; every round removes at least one byte, so the
    length of the string is fuel enough. *)
Definition TrimSpace (s : string) : string :=
  let l := trimSpaceLeft (String.length s) s in
  trimSpaceRight (String.length l) l.

(** [strings.Split(s, sep)] for a separator of one byte: one more piece
    than there are separators, so the empty string gives one empty piece. *)
Fixpoint Split (s : string) (sep : ascii) : list string :=
  match s with
  | EmptyString => [EmptyString]
  | String c s' =>
      if Ascii.eqb c sep then EmptyString :: Split s' sep
      else match Split s' sep with
           | piece :: pieces => String c piece :: pieces
           | [] => [String c EmptyString]
           end
  end.

Fixpoint Join (elems : list string) (sep : string) : string :=
  match elems with
  | [] => EmptyString
  | [e] => e
  | e :: rest => e +:+ sep +:+ Join rest sep
  end.

End GoStrings.

(** ** utils.go *)

Definition containsString (stringSlice : list string) (value : string) : bool :=
  existsb (fun stringSliceValue => String.eqb stringSliceValue value) stringSlice.

(** [sort.Search]: the loop [for i < j] with [h := (i+j)/2].  The interval
    shrinks at every turn, so [j - i] turns are enough. *)
Fixpoint searchLoop (fuel : nat) (f : nat -> bool) (i j : nat) : nat :=
  match fuel with
  | O => i
  | S fuel' =>
      if (i <? j)%nat then
        let h := ((i + j) / 2)%nat in
        if negb (f h) then searchLoop fuel' f (h + 1)%nat j
        else searchLoop fuel' f i h
      else i
  end.

Definition sort_Search (n : nat) (f : nat -> bool) : nat :=
  searchLoop n f 0%nat n.

Definition searchRange (n : nat) (fn : nat -> Z) : nat * nat * bool :=
  let lo := sort_Search n (fun i => fn i <=? 0) in
  let hi := sort_Search n (fun i => fn i <? 0) in
  let found := (Z.of_nat hi - Z.of_nat lo) >? 0 in
  (lo, hi, found).

Definition splitPathSegs (path : string) : list string :=
  let pathSegs := GoStrings.Split (GoStrings.Trim path "/") "/"%char in
  match pathSegs with
  | [s] => if String.eqb s "" then [] else pathSegs
  | _ => pathSegs
  end.


(** ** mux.go: errors *)

Inductive error : Set :=
  | ErrHandlerMustBeNotNil
  | ErrMethodMustBeValid
  | ErrRequestMustHaveContext
  | ErrRouteMustExist
  | ErrRouteMustNotConflict
  | ErrURLPatternInvalidQueryRoute
  | ErrURLPatternInvalidPathVar
  | ErrURLPatternMustBeValid.

(** A Go function returning [(T, error)]. *)
Inductive result (A : Type) : Type :=
  | Ok (a : A)
  | Err (e : error).
Arguments Ok {A} a.
Arguments Err {A} e.

Definition bind {A B : Type} (r : result A) (k : A -> result B) : result B :=
  match r with
  | Ok a => k a
  | Err e => Err e
  end.

Notation "x <-! r ; k" := (bind r (fun x => k))
  (at level 100, r at next level, right associativity, only parsing).

(** ** mux.go: query routes *)

Record queryEntry : Set := mkQueryEntry { Name : string; Value : string }.

#[global] Instance queryEntry_inhabited : Inhabited queryEntry :=
  populate {| Name := ""; Value := "" |}.

(** [type queryRoute []queryEntry] *)
Abbreviation queryRoute := (list queryEntry).

(** [url.Values], a [map[string][]string]: the pairs in the order in which
    [range] visits them; a key occurs once. *)
Abbreviation url_Values := (list (string * list string)).

(** [queryRoute.Less], on the two entries instead of their indexes. *)
Definition Less (a b : queryEntry) : bool :=
  if GoStrings.lt (Name a) (Name b) then true
  else if GoStrings.gt (Name a) (Name b) then false
  else GoStrings.lt (Value a) (Value b).

(** [sort.Sort(entries)]: the entries in an order in which no entry is [Less]
    than an earlier one.  Two entries neither of which is [Less] than the
    other are the same entry ([Less_incomparable] below), so that order is
    unique and the instability of Go's algorithm does not show. *)
Definition notAfter (a b : queryEntry) : Prop := Less b a = false.

#[global] Instance notAfter_dec (a b : queryEntry) : Decision (notAfter a b).
Proof. unfold notAfter. apply _. Defined.

Definition sort_Sort (entries : queryRoute) : queryRoute :=
  merge_sort notAfter entries.

(** The inner loop of [newQueryRoute], over the values listed for one name. *)
Fixpoint scanParamValues (paramName : string) (paramValues : list string)
    (alreadyHavePresenceTest alreadyHaveValueTest : bool)
    (entries : queryRoute) : result queryRoute :=
  match paramValues with
  | [] => Ok entries
  | paramValue :: paramValues' =>
      if alreadyHavePresenceTest then Err ErrURLPatternInvalidQueryRoute
      else
        let entry := {| Name := paramName; Value := paramValue |} in
        if String.eqb paramValue "" then
          if alreadyHaveValueTest then Err ErrURLPatternInvalidQueryRoute
          else scanParamValues paramName paramValues' true alreadyHaveValueTest
                 (entries ++ [entry])
        else scanParamValues paramName paramValues' alreadyHavePresenceTest true
               (entries ++ [entry])
  end.

(** The outer loop of [newQueryRoute], over the parameter names. *)
Fixpoint scanParams (urlQueryParamsAndValues : url_Values)
    (entries : queryRoute) : result queryRoute :=
  match urlQueryParamsAndValues with
  | [] => Ok entries
  | (paramName, paramValues) :: rest =>
      entries' <-! scanParamValues paramName paramValues false false entries;
      scanParams rest entries'
  end.

Definition newQueryRoute (urlQueryParamsAndValues : url_Values) : result queryRoute :=
  entries <-! scanParams urlQueryParamsAndValues [];
  Ok (sort_Sort entries).

(** The first loop of [Acceptable]: every (name, value) pair of the request. *)
Definition requestEntries (requestQueryValues : url_Values) : queryRoute :=
  flat_map (fun '(paramName, paramValues) =>
              map (fun paramValue => {| Name := paramName; Value := paramValue |})
                  paramValues)
           requestQueryValues.

(** The merge loop of [Acceptable].  The two indexes are kept as the slices
    [route[routeParamIndex:]] and [req[queryParamIndex:]]; the result is the
    loop's verdict: [None] for its [return false], otherwise what is left of
    the route and the flag [routeParamAlreadyUsed] when the loop ends. *)
Fixpoint acceptLoop (route : queryRoute) : queryRoute -> bool -> option (queryRoute * bool) :=
  fix scanRequest (req : queryRoute) (routeParamAlreadyUsed : bool) :=
    match route, req with
    | routeParam :: route', queryParam :: req' =>
        if GoStrings.gt (Name routeParam) (Name queryParam)
           || (String.eqb (Name routeParam) (Name queryParam)
               && negb (String.eqb (Value routeParam) "")
               && GoStrings.gt (Value routeParam) (Value queryParam))
        then scanRequest req' routeParamAlreadyUsed
        else if String.eqb (Name routeParam) (Name queryParam)
                && (String.eqb (Value routeParam) ""
                    || String.eqb (Value routeParam) (Value queryParam))
        then scanRequest req' true
        else if routeParamAlreadyUsed
        then acceptLoop route' req false
        else None
    | _, _ => Some (route, routeParamAlreadyUsed)
    end.

Definition Acceptable (route : queryRoute) (requestQueryValues : url_Values) : bool :=
  let reqSortedQueryEntries := sort_Sort (requestEntries requestQueryValues) in
  match acceptLoop route reqSortedQueryEntries false with
  | None => false
  | Some (rest, routeParamAlreadyUsed) =>
      (* routeParamIndex == len(route), after the adjustment for a used entry *)
      if routeParamAlreadyUsed then (length rest =? 1)%nat else (length rest =? 0)%nat
  end.

(** ** The parts of net/url and net/http that the router reads *)

Module url.

(** The fields of [url.URL] that the router, [RequestURI] and [EscapedPath]
    read. *)
Record URL : Set := mkURL {
  Scheme : string;
  Opaque : string;
  Host : string;
  Path : string;
  RawPath : string;
  ForceQuery : bool;
  RawQuery : string
}.

Definition IsAbs (u : URL) : bool := negb (String.eqb (Scheme u) "").

End url.

Module http.

Definition MethodGet := "GET"%string.
Definition MethodHead := "HEAD"%string.
Definition MethodPost := "POST"%string.
Definition MethodPut := "PUT"%string.
Definition MethodPatch := "PATCH"%string.
Definition MethodDelete := "DELETE"%string.
Definition MethodConnect := "CONNECT"%string.
Definition MethodOptions := "OPTIONS"%string.
Definition MethodTrace := "TRACE"%string.

(** An [http.Handler] value, known by a number; a nil handler is [None]. *)
Inductive Handler : Set := handlerRef (id : nat).

(** The fields of [http.Request] that the router reads; [TLS] tells whether
    the field [TLS] is non-nil. *)
Record Request : Set := mkRequest {
  Method : string;
  URL : url.URL;
  Host : string;
  TLS : bool
}.

End http.

Definition defaultAllowedSchemes : list string := ["http"; "https"]%string.

Definition defaultAllowedHTTPMethods : list string :=
  [http.MethodPut; http.MethodGet; http.MethodHead; http.MethodOptions;
   http.MethodPost; http.MethodPatch; http.MethodDelete; http.MethodConnect;
   http.MethodTrace].

(** ** mux.go: routes *)

Record muxRoute : Type := mkMuxRoute {
  method : string;
  scheme : string;
  host : string;
  path : list string;
  vars : gmap string nat;
  query : queryRoute
}.

Record muxEntry : Type := mkMuxEntry {
  route : muxRoute;
  handler : http.Handler
}.

#[global] Instance muxEntry_inhabited : Inhabited muxEntry :=
  populate {| route := mkMuxRoute "" "" "" [] ∅ []; handler := http.handlerRef 0 |}.

(** The lock aside, the state of a [Mux]. *)
Record Mux : Type := mkMux {
  NotFoundHandler : option http.Handler;
  entries : list muxEntry
}.

(** A [for] loop over the indexes [idxs] whose body either returns from the
    enclosing function ([Some r]) or goes on to the next index ([None]). *)
Fixpoint forRange {A : Type} (body : nat -> option A) (idxs : list nat) : option A :=
  match idxs with
  | [] => None
  | i :: idxs' =>
      match body i with
      | Some r => Some r
      | None => forRange body idxs'
      end
  end.

(** [strings.HasPrefix(seg, "{") && strings.HasSuffix(seg, "}")] *)
Definition varSeg (seg : string) : bool :=
  GoStrings.HasPrefix seg "{" && GoStrings.HasSuffix seg "}".

(** The loop of [newMuxRoute] over [pathSegments[i:]], filling [vars]. *)
Fixpoint scanPathVars (lastSeg : Z) (i : nat) (pathSegments : list string)
    (vars : gmap string nat) : result (gmap string nat) :=
  match pathSegments with
  | [] => Ok vars
  | v :: rest =>
      if negb (GoStrings.HasPrefix v "{") || negb (GoStrings.HasSuffix v "}")
      then scanPathVars lastSeg (S i) rest vars
      else
        let k := GoStrings.TrimSpace (GoStrings.Trim v "{}") in
        if String.eqb k "" then Err ErrURLPatternInvalidPathVar
        else if String.eqb k "*" && negb (Z.of_nat i =? lastSeg)
        then Err ErrURLPatternInvalidPathVar
        else match vars !! k with
             | Some _ => Err ErrURLPatternInvalidPathVar
             | None => scanPathVars lastSeg (S i) rest (<[k := i]> vars)
             end
  end.

Definition compareMethodSchemeHost
    (httpMethod1 httpMethod2 scheme1 scheme2 host1 host2 : string) : Z :=
  let r := GoStrings.Compare httpMethod1 httpMethod2 in
  if negb (r =? 0) then r else
  let r := GoStrings.Compare scheme1 scheme2 in
  if negb (r =? 0) then r else
  let r := GoStrings.Compare host1 host2 in
  if negb (r =? 0) then r else
  0.

(** The body of the path loop of [compareDynamicRoutes] at index [i]. *)
Definition dynamicSegment (r1 r2 : muxRoute) (i : nat) : option Z :=
  let rp1Len := Z.of_nat (length (path r1)) in
  let rp2Len := Z.of_nat (length (path r2)) in
  if ((Z.of_nat i =? rp1Len - 1) && String.eqb (path r1 !!! i) "{*}")
     || ((Z.of_nat i =? rp2Len - 1) && String.eqb (path r2 !!! i) "{*}")
  then Some 0
  else
    let seg1 := path r1 !!! i in
    let seg2 := path r2 !!! i in
    let varSeg1 := varSeg seg1 in
    let varSeg2 := varSeg seg2 in
    if negb (Bool.eqb varSeg1 varSeg2) then Some 0
    else if varSeg1 then None
    else
      let r := GoStrings.Compare seg1 seg2 in
      if negb (r =? 0) then Some r else None.

(** The body of the query loop of [compareDynamicRoutes] at index [i]. *)
Definition dynamicQueryEntry (r1 r2 : muxRoute) (i : nat) : option Z :=
  let r := GoStrings.Compare (Name (query r1 !!! i)) (Name (query r2 !!! i)) in
  if negb (r =? 0) then Some r
  else if String.eqb (Value (query r1 !!! i)) "" || String.eqb (Value (query r2 !!! i)) ""
  then None
  else
    let r := GoStrings.Compare (Value (query r1 !!! i)) (Value (query r2 !!! i)) in
    if negb (r =? 0) then Some r else None.

Definition compareDynamicRoutes (r1 r2 : muxRoute) : Z :=
  let r := compareMethodSchemeHost (method r1) (method r2) (scheme r1) (scheme r2)
             (host r1) (host r2) in
  if negb (r =? 0) then r else
  let rp1Len := length (path r1) in
  let rp2Len := length (path r2) in
  match forRange (dynamicSegment r1 r2) (seq 0 (Nat.min rp1Len rp2Len)) with
  | Some r => r
  | None =>
      let r := Z.of_nat rp1Len - Z.of_nat rp2Len in
      if negb (r =? 0) then r else
      let r := Z.of_nat (length (query r2)) - Z.of_nat (length (query r1)) in
      if negb (r =? 0) then r else
      match forRange (dynamicQueryEntry r1 r2) (seq 0 (length (query r1))) with
      | Some r => r
      | None => 0
      end
  end.

(** The body of the path loop of [compareStaticRoutes] at index [i]. *)
Definition staticSegment (r1 r2 : muxRoute) (i : nat) : option Z :=
  let r := GoStrings.Compare (path r1 !!! i) (path r2 !!! i) in
  if negb (r =? 0) then Some r else None.

(** The body of the query loop of [compareStaticRoutes] at index [i]. *)
Definition staticQueryEntry (r1 r2 : muxRoute) (i : nat) : option Z :=
  let r := GoStrings.Compare (Name (query r1 !!! i)) (Name (query r2 !!! i)) in
  if negb (r =? 0) then Some r
  else
    let r := GoStrings.Compare (Value (query r1 !!! i)) (Value (query r2 !!! i)) in
    if negb (r =? 0) then Some r else None.

Definition compareStaticRoutes (r1 r2 : muxRoute) : Z :=
  let r := compareMethodSchemeHost (method r1) (method r2) (scheme r1) (scheme r2)
             (host r1) (host r2) in
  if negb (r =? 0) then r else
  let rp1Len := length (path r1) in
  let rp2Len := length (path r2) in
  match forRange (staticSegment r1 r2) (seq 0 (Nat.min rp1Len rp2Len)) with
  | Some r => r
  | None =>
      let r := Z.of_nat rp1Len - Z.of_nat rp2Len in
      if negb (r =? 0) then r else
      let q1Len := length (query r1) in
      let q2Len := length (query r2) in
      let r := Z.of_nat q2Len - Z.of_nat q1Len in
      if negb (r =? 0) then r else
      match forRange (staticQueryEntry r1 r2) (seq 0 q1Len) with
      | Some r => r
      | None => 0
      end
  end.

(** The body of the path loop of [compareRequestRoute] at index [i]. *)
Definition requestSegment (reqSegs : list string) (route : muxRoute) (i : nat) : option Z :=
  let routeLen := Z.of_nat (length (path route)) in
  if (Z.of_nat i =? routeLen - 1) && String.eqb (path route !!! i) "{*}"
  then Some 0
  else
    let reqSeg := reqSegs !!! i in
    let routeSeg := path route !!! i in
    if varSeg routeSeg then None
    else
      let r := GoStrings.Compare reqSeg routeSeg in
      if negb (r =? 0) then Some r else None.

Section Router.

(** net/url is not part of the repository; the router is read against any
    behaviour of the three calls it makes into it. *)

(** [url.Parse]; [None] stands for a non-nil error. *)
Variable url_Parse : string -> option url.URL.

(** The method [Query] of [URL]: the parsed [RawQuery]. *)
Variable url_Query : url.URL -> url_Values.

(** The method [EscapedPath] of [URL]: [Path] in its escaped form. *)
Variable url_EscapedPath : url.URL -> string.

(** The method [RequestURI] of [URL]: the encoded path?query or
    opaque?query string that would be used in an HTTP request. *)
Definition url_RequestURI (u : url.URL) : string :=
  let result :=
    if String.eqb (url.Opaque u) "" then
      let p := url_EscapedPath u in
      if String.eqb p "" then "/"%string else p
    else if GoStrings.HasPrefix (url.Opaque u) "//"
    then url.Scheme u +:+ ":" +:+ url.Opaque u
    else url.Opaque u in
  if url.ForceQuery u || negb (String.eqb (url.RawQuery u) "")
  then result +:+ "?" +:+ url.RawQuery u
  else result.

Definition newMuxRoute (httpMethod urlPattern : string) : result muxRoute :=
  if negb (containsString defaultAllowedHTTPMethods httpMethod)
  then Err ErrMethodMustBeValid
  else if String.eqb urlPattern "" then Err ErrURLPatternMustBeValid
  else
    match url_Parse urlPattern with
    | None => Err ErrURLPatternMustBeValid
    | Some u =>
        if negb (url.IsAbs u) then Err ErrURLPatternMustBeValid
        else if negb (containsString defaultAllowedSchemes (url.Scheme u))
        then Err ErrURLPatternMustBeValid
        else if String.eqb (url.Host u) "" then Err ErrURLPatternMustBeValid
        else if GoStrings.HasPrefix (url.Host u) ":" then Err ErrURLPatternMustBeValid
        else
          let pathSegments := splitPathSegs (url.Path u) in
          let lastSeg := Z.of_nat (length pathSegments) - 1 in
          vars <-! scanPathVars lastSeg 0 pathSegments ∅;
          queryRoute <-! newQueryRoute (url_Query u);
          Ok {| method := httpMethod;
                scheme := url.Scheme u;
                host := url.Host u;
                path := pathSegments;
                vars := vars;
                query := queryRoute |}
    end.

Definition compareRequestRoute (req : http.Request) (route : muxRoute) : Z :=
  let reqScheme := if http.TLS req then "https"%string else "http"%string in
  let r := compareMethodSchemeHost (http.Method req) (method route)
             reqScheme (scheme route) (http.Host req) (host route) in
  if negb (r =? 0) then r else
  let reqSegs := splitPathSegs (url_RequestURI (http.URL req)) in
  let reqLen := length reqSegs in
  let routeLen := length (path route) in
  match forRange (requestSegment reqSegs route) (seq 0 (Nat.min reqLen routeLen)) with
  | Some r => r
  | None => Z.of_nat reqLen - Z.of_nat routeLen
  end.

(** [Handle]: the error returned ([None] for nil) and the [Mux] afterwards.
    The three statements that put the entry in place shift
    [m.entries[i:]] one place to the right and write the entry at [i]. *)
Definition Handle (m : Mux) (httpMethod urlPattern : string)
    (handler : option http.Handler) : option error * Mux :=
  match newMuxRoute httpMethod urlPattern with
  | Err err => (Some err, m)
  | Ok newRoute =>
      match handler with
      | None => (Some ErrHandlerMustBeNotNil, m)
      | Some newHandler =>
          let eLen := length (entries m) in
          let '(i, _, found) :=
            searchRange eLen (fun i =>
              compareDynamicRoutes newRoute (route (entries m !!! i))) in
          if found then (Some ErrRouteMustNotConflict, m)
          else
            (None,
             {| NotFoundHandler := NotFoundHandler m;
                entries := take i (entries m)
                           ++ {| route := newRoute; handler := newHandler |}
                           :: drop i (entries m) |})
      end
  end.

(** [RemoveHandler]: [copy] moves [m.entries[i+1:]] one place to the left
    and the slice is cut after it. *)
Definition RemoveHandler (m : Mux) (httpMethod urlPattern : string)
    : option error * Mux :=
  match newMuxRoute httpMethod urlPattern with
  | Err err => (Some err, m)
  | Ok oldRoute =>
      let '(i, _, found) :=
        searchRange (length (entries m)) (fun i =>
          compareStaticRoutes oldRoute (route (entries m !!! i))) in
      if negb found then (Some ErrRouteMustExist, m)
      else
        (None,
         {| NotFoundHandler := NotFoundHandler m;
            entries := take i (entries m) ++ drop (i + 1) (entries m) |})
  end.

(** What [ServeHTTP] ends up calling. *)
Inductive served : Set :=
  | servedBy (h : http.Handler)
  | notFound (fallback : option http.Handler).

(** The scan [for ; i < hi && !Acceptable(...); i++] over [m.entries[i:hi]]. *)
Fixpoint firstAcceptable (candidates : list muxEntry) (q : url_Values)
    : option muxEntry :=
  match candidates with
  | [] => None
  | e :: candidates' =>
      if Acceptable (query (route e)) q then Some e
      else firstAcceptable candidates' q
  end.

Definition ServeHTTP (m : Mux) (r : http.Request) : served :=
  let '(lo, hi, found) :=
    searchRange (length (entries m)) (fun i =>
      compareRequestRoute r (route (entries m !!! i))) in
  if negb found then notFound (NotFoundHandler m)
  else
    match firstAcceptable (take (hi - lo) (drop lo (entries m)))
            (url_Query (http.URL r)) with
    | None => notFound (NotFoundHandler m)
    | Some e => servedBy (handler e)
    end.

(** One turn of the loop of [PathVars] over [entry.route.vars]; [None] is
    the run-time panic of an index or a slice bound out of range. *)
Definition pathVar (pathSegs : list string) (k : string) (v : nat)
    (vars : option (gmap string string)) : option (gmap string string) :=
  vars ← vars;
  if String.eqb k "*" then
    if (v <=? length pathSegs)%nat
    then Some (<[k := GoStrings.Join (drop v pathSegs) "/"]> vars)
    else None
  else
    seg ← pathSegs !! v;
    Some (<[k := seg]> vars).

Definition PathVars (m : Mux) (r : http.Request) : option (gmap string string) :=
  let eLen := length (entries m) in
  let '(i, _, found) :=
    searchRange eLen (fun i =>
      compareRequestRoute r (route (entries m !!! i))) in
  if negb found then Some ∅
  else
    entry ← entries m !! i;
    let pathSegs := splitPathSegs (url.Path (http.URL r)) in
    map_fold (pathVar pathSegs) (Some ∅) (vars (route entry)).

End Router.

(** ** net/url on plain URLs

    What [url.Parse], [Query] and [EscapedPath] do on URLs of the shape
    [scheme://host[:port]/path?k=v&k] that hold no [%], [#], [@], [+], [;]
    or bracketed host.  The examples below run the router on these; the
    theorems hold for every behaviour of net/url. *)

Module Plain.

Definition isLetter (c : ascii) : bool :=
  let n := nat_of_ascii c in
  ((65 <=? n) && (n <=? 90) || (97 <=? n) && (n <=? 122))%nat.

Definition isDigit (c : ascii) : bool :=
  let n := nat_of_ascii c in ((48 <=? n) && (n <=? 57))%nat.

Definition toLower (c : ascii) : ascii :=
  let n := nat_of_ascii c in
  if ((65 <=? n) && (n <=? 90))%nat then ascii_of_nat (n + 32) else c.

Fixpoint ToLower (s : string) : string :=
  match s with
  | EmptyString => EmptyString
  | String c s' => String (toLower c) (ToLower s')
  end.

(** [strings.Cut(s, sep)] for a separator of one byte. *)
Fixpoint Cut (s : string) (sep : ascii) : string * string * bool :=
  match s with
  | EmptyString => (EmptyString, EmptyString, false)
  | String c s' =>
      if Ascii.eqb c sep then (EmptyString, s', true)
      else let '(before, after, found) := Cut s' sep in
           (String c before, after, found)
  end.

(** [getScheme]: [Some (scheme, rest)], or [None] for "missing protocol
    scheme"; [i] is the index of the head of [s] in [rawURL]. *)
Fixpoint getScheme (rawURL : string) (i : nat) (s : string) : option (string * string) :=
  match s with
  | EmptyString => Some (EmptyString, rawURL)
  | String c s' =>
      if isLetter c then getScheme rawURL (S i) s'
      else if isDigit c || Ascii.eqb c "+" || Ascii.eqb c "-" || Ascii.eqb c "."
      then (if (i =? 0)%nat then Some (EmptyString, rawURL)
            else getScheme rawURL (S i) s')
      else if Ascii.eqb c ":"
      then (if (i =? 0)%nat then None
            else Some (String.substring 0 i rawURL, s'))
      else Some (EmptyString, rawURL)
  end.

Fixpoint allDigits (s : string) : bool :=
  match s with
  | EmptyString => true
  | String c s' => isDigit c && allDigits s'
  end.

(** The text after the last colon of [host], if there is a colon. *)
Fixpoint afterLastColon (host : string) : option string :=
  match host with
  | EmptyString => None
  | String c host' =>
      match afterLastColon host' with
      | Some port => Some port
      | None => if Ascii.eqb c ":" then Some host' else None
      end
  end.

Definition validOptionalPort (host : string) : bool :=
  match afterLastColon host with
  | Some port => allDigits port
  | None => true
  end.

(** [shouldEscape(c, encodePath)] *)
Definition shouldEscapePath (c : ascii) : bool :=
  if isLetter c || isDigit c then false
  else if GoStrings.inCutset c "-_.~$&+,/:;=@" then false
  else true.

Definition hexDigit (n : nat) : ascii :=
  match String.get n "0123456789ABCDEF" with
  | Some c => c
  | None => "0"%char
  end.

(** [escape(s, encodePath)] *)
Fixpoint escapePath (s : string) : string :=
  match s with
  | EmptyString => EmptyString
  | String c s' =>
      if shouldEscapePath c
      then String "%" (String (hexDigit (nat_of_ascii c / 16))
                         (String (hexDigit (nat_of_ascii c mod 16)) (escapePath s')))
      else String c (escapePath s')
  end.

(** [validEncoded(s, encodePath)] *)
Fixpoint validEncodedPath (s : string) : bool :=
  match s with
  | EmptyString => true
  | String c s' =>
      (GoStrings.inCutset c "!$&'()*+,;=:@[]%" || negb (shouldEscapePath c))
      && validEncodedPath s'
  end.

Definition Parse (rawURL : string) : option url.URL :=
  '(scheme, rest) ← getScheme rawURL 0 rawURL;
  let scheme := ToLower scheme in
  let '(rest, rawQuery, forceQuery) :=
    match Cut rest "?" with
    | (before, EmptyString, true) => (before, EmptyString, true)
    | (before, after, _) => (before, after, false)
    end in
  if negb (GoStrings.HasPrefix rest "/") && negb (String.eqb scheme "")
  then Some (url.mkURL scheme rest "" "" "" forceQuery rawQuery)
  else if negb (GoStrings.HasPrefix rest "/") && negb (String.eqb rest "")
          && GoStrings.inCutset ":" (fst (fst (Cut rest "/")))
  then None
  else
    let '(authority, rest) :=
      if GoStrings.HasPrefix rest "//"
         && (negb (String.eqb scheme "") || negb (GoStrings.HasPrefix rest "///"))
      then let '(authority, after, found) :=
             Cut (String.substring 2 (String.length rest - 2) rest) "/" in
           (authority, if found then String "/" after else EmptyString)
      else (EmptyString, rest) in
    if negb (validOptionalPort authority) then None
    else
      Some (url.mkURL scheme "" authority rest
              (if String.eqb (escapePath rest) rest then "" else rest)
              forceQuery rawQuery).

(** [m[key] = append(m[key], value)] on the association list. *)
Fixpoint appendValue (m : url_Values) (key value : string) : url_Values :=
  match m with
  | [] => [(key, [value])]
  | (k, vs) :: m' =>
      if String.eqb k key then (k, vs ++ [value]) :: m'
      else (k, vs) :: appendValue m' key value
  end.

(** [parseQuery]: the pieces between [&], each cut at its first [=]. *)
Definition ParseQuery (query : string) : url_Values :=
  foldl (fun m piece =>
           if String.eqb piece "" then m
           else let '(key, value, _) := Cut piece "=" in appendValue m key value)
        [] (GoStrings.Split query "&").

Definition Query (u : url.URL) : url_Values := ParseQuery (url.RawQuery u).

Definition EscapedPath (u : url.URL) : string :=
  if negb (String.eqb (url.RawPath u) "") && validEncodedPath (url.RawPath u)
     && String.eqb (url.RawPath u) (url.Path u)
  then url.RawPath u
  else if String.eqb (url.Path u) "*" then "*"%string
  else escapePath (url.Path u).

End Plain.

(** ** Notions used to state the properties *)

(** The values listed for one parameter name mix presence and value tests:
    at a later place [j] there is a value, empty or not, after an empty one
    at [i], or an empty value after a nonempty one at [i]. *)
Definition mixedTests (paramValues : list string) : Prop :=
  exists (i j : nat) (vi vj : string),
    (i < j)%nat /\ paramValues !! i = Some vi /\ paramValues !! j = Some vj
    /\ (vi = ""%string \/ (vi <> ""%string /\ vj = ""%string)).

(** [a] does not come after [b] in the order by name, then by value. *)
Definition byNameThenValue (a b : queryEntry) : Prop :=
  String.compare (Name a) (Name b) = Lt
  \/ (Name a = Name b /\ String.compare (Value a) (Value b) <> Gt).

(** The request pair [queryParam] passes the test [routeParam]: the names
    are the same, and the test is a presence test or asks for that value. *)
Definition matchedBy (routeParam queryParam : queryEntry) : Prop :=
  Name routeParam = Name queryParam
  /\ (Value routeParam = ""%string \/ Value routeParam = Value queryParam).

(** Some pair of the request passes the test [routeParam]. *)
Definition satisfiedBy (req : queryRoute) (routeParam : queryEntry) : Prop :=
  exists queryParam, queryParam ∈ req /\ matchedBy routeParam queryParam.

(** Sorted with no entry twice: every entry is [Less] than the later ones. *)
Definition strictlySorted (route : queryRoute) : Prop :=
  StronglySorted (fun a b => Less a b = true) route.

(** A presence test is the only test of its name. *)
Definition exclusiveTests (route : queryRoute) : Prop :=
  forall a b, a ∈ route -> b ∈ route ->
    Name a = Name b -> Value a = ""%string -> a = b.

(** The first condition of the merge loop of [Acceptable]: the request pair
    sorts before anything the test can take. *)
Definition skipped (routeParam queryParam : queryEntry) : bool :=
  GoStrings.gt (Name routeParam) (Name queryParam)
  || (String.eqb (Name routeParam) (Name queryParam)
      && negb (String.eqb (Value routeParam) "")
      && GoStrings.gt (Value routeParam) (Value queryParam)).

(** The second condition of the merge loop of [Acceptable]. *)
Definition matched (routeParam queryParam : queryEntry) : bool :=
  String.eqb (Name routeParam) (Name queryParam)
  && (String.eqb (Value routeParam) ""
      || String.eqb (Value routeParam) (Value queryParam)).

(** The end of [Acceptable]: [routeParamIndex == len(route)] after the
    adjustment for a used entry. *)
Definition allConsumed (verdict : option (queryRoute * bool)) : bool :=
  match verdict with
  | None => false
  | Some (rest, routeParamAlreadyUsed) =>
      if routeParamAlreadyUsed then (length rest =? 1)%nat else (length rest =? 0)%nat
  end.

(** The route of the rule [?tag=a&tag=b]. *)
Definition tagRoute : queryRoute := [mkQueryEntry "tag" "a"; mkQueryEntry "tag" "b"].

(** ** Tables and requests used in the examples *)

Module Examples.

Definition register (m : Mux) (httpMethod urlPattern : string) (id : nat)
    : option error * Mux :=
  Handle Plain.Parse Plain.Query m httpMethod urlPattern (Some (http.handlerRef id)).

Definition remove (m : Mux) (httpMethod urlPattern : string) : option error * Mux :=
  RemoveHandler Plain.Parse Plain.Query m httpMethod urlPattern.

Definition pathVars (m : Mux) (r : http.Request) : option (gmap string string) :=
  PathVars Plain.EscapedPath m r.

Definition emptyMux : Mux := {| NotFoundHandler := None; entries := [] |}.

(** A request [GET http://h<path>?<rawQuery>] as the server hands it over. *)
Definition get (path rawQuery : string) : http.Request :=
  {| http.Method := "GET";
     http.URL := {| url.Scheme := ""; url.Opaque := ""; url.Host := "";
                    url.Path := path; url.RawPath := "";
                    url.ForceQuery := false; url.RawQuery := rawQuery |};
     http.Host := "h";
     http.TLS := false |}.

(** Three routes on one path, told apart by their queries. *)
Definition queryTable1 : Mux := snd (register emptyMux "PUT" "http://h?a&b=1" 0).
Definition queryTable2 : Mux := snd (register queryTable1 "PUT" "http://h?a=5&b=2" 1).
Definition queryTable3 : Mux := snd (register queryTable2 "PUT" "http://h?a=9&b=1" 2).

(** Two routes that start with a variable. *)
Definition varTable1 : Mux := snd (register emptyMux "GET" "http://h/{b}/c" 0).
Definition varTable2 : Mux := snd (register varTable1 "GET" "http://h/{a}/x" 1).

Definition fixedTable : Mux := snd (register emptyMux "GET" "http://h/fixed" 0).
Definition fixedSlashTable : Mux := snd (register emptyMux "GET" "http://h/fixed/" 0).
Definition twoVarsTable : Mux := snd (register emptyMux "GET" "http://h/{a}/{b}" 0).
Definition parentTable : Mux := snd (register emptyMux "GET" "http://h/parent/{*}" 0).

Definition routeOf (path : list string) (vars : gmap string nat) (query : queryRoute)
    : muxRoute :=
  {| method := "GET"; scheme := "http"; host := "h";
     path := path; vars := vars; query := query |}.

(** The routes of [GET http://h/{a}/x] and [GET http://h/fixed/y]. *)
Definition variableRoute : muxRoute :=
  routeOf ["{a}"; "x"]%string {["a"%string := 0%nat]} [].
Definition literalRoute : muxRoute := routeOf ["fixed"; "y"]%string ∅ [].

End Examples.

(** ** mux.go: listings *)

(** The loop of [queryRoute.String] over [route[i:]]: what it writes to the
    buffer. *)
Fixpoint writeQueryEntries (i : nat) (route : queryRoute) : string :=
  match route with
  | [] => EmptyString
  | queryEntry :: rest =>
      (if (i =? 0)%nat then "?" else "&")
      +:+ Name queryEntry
      +:+ (if String.eqb (Value queryEntry) "" then EmptyString
           else "=" +:+ Value queryEntry)
      +:+ writeQueryEntries (S i) rest
  end.

Definition queryRoute_String (route : queryRoute) : string :=
  if (length route =? 0)%nat then EmptyString else writeQueryEntries 0 route.

(** The loop of [muxRoute.String] over the path. *)
Fixpoint writePath (path : list string) : string :=
  match path with
  | [] => EmptyString
  | p :: rest => "/" +:+ p +:+ writePath rest
  end.

Definition muxRoute_String (r : muxRoute) : string :=
  method r +:+ "+" +:+ scheme r +:+ "://" +:+ host r
  +:+ writePath (path r) +:+ queryRoute_String (query r).

(** [Mux.String], over the entries; the line ends with a line feed. *)
Fixpoint writeEntries (entries : list muxEntry) : string :=
  match entries with
  | [] => EmptyString
  | e :: rest =>
      muxRoute_String (route e) +:+ String (ascii_of_nat 10) EmptyString
      +:+ writeEntries rest
  end.

Definition Mux_String (m : Mux) : string := writeEntries (entries m).

(** ** Further notions: sorted tables, listings, well-formed routes *)

(** The table is sorted for the comparison [fn] of its [n] entries against
    one route or request: the results go from positive through zero to
    negative and never back. *)
Definition sortedFor (n : nat) (fn : nat -> Z) : Prop :=
  forall a b, (a <= b < n)%nat ->
    (fn a <= 0 -> fn b <= 0) /\ (fn a < 0 -> fn b < 0).

(** The name that a variable segment declares. *)
Definition varName (seg : string) : string :=
  GoStrings.TrimSpace (GoStrings.Trim seg "{}").

(** The map [vars] of a route is the index of its variable segments: every
    name in it is the name declared by the segment at its index, a name is
    never empty, the name [*] is at the last segment only, and every
    variable segment is in the map. *)
Definition wellFormedVars (r : muxRoute) : Prop :=
  (forall k i, vars r !! k = Some i ->
     exists seg, path r !! i = Some seg /\ varSeg seg = true /\ k = varName seg
                 /\ k <> ""%string
                 /\ (k = "*"%string -> S i = length (path r)))
  /\ (forall i seg, path r !! i = Some seg -> varSeg seg = true ->
         vars r !! varName seg = Some i).

(** What [PathVars] stores for the variable [k] declared at index [v]. *)
Definition pathVarValue (pathSegs : list string) (k : string) (v : nat) : option string :=
  if String.eqb k "*" then Some (GoStrings.Join (drop v pathSegs) "/")
  else pathSegs !! v.

(** The segments of a request path are matched by the segments of a route:
    a literal segment by itself, a variable segment by any segment, and a
    [{*}] at the end of the route by one segment or more. *)
Fixpoint segmentsMatch (reqSegs routeSegs : list string) : Prop :=
  match routeSegs with
  | [] => reqSegs = []
  | routeSeg :: routeSegs' =>
      match reqSegs with
      | [] => False
      | reqSeg :: reqSegs' =>
          (routeSegs' = [] /\ routeSeg = "{*}"%string)
          \/ ((varSeg routeSeg = true \/ reqSeg = routeSeg)
              /\ segmentsMatch reqSegs' routeSegs')
      end
  end.

(** What the path loop of [compareRequestRoute] and the comparison of the
    lengths after it return. *)
Definition comparePaths (reqSegs : list string) (r : muxRoute) : Z :=
  match forRange (requestSegment reqSegs r)
          (seq 0 (Nat.min (length reqSegs) (length (path r)))) with
  | Some c => c
  | None => Z.of_nat (length reqSegs) - Z.of_nat (length (path r))
  end.

(** * Properties *)

(** ** The order on strings *)

Section StringOrder.

Lemma ascii_compare_refl (a : ascii) : Ascii.compare a a = Eq.
Proof. unfold Ascii.compare. apply N.compare_refl. Qed.

Lemma ascii_compare_lt_trans (a b c : ascii) :
  Ascii.compare a b = Lt -> Ascii.compare b c = Lt -> Ascii.compare a c = Lt.
Proof.
  unfold Ascii.compare. rewrite !N.compare_lt_iff. apply N.lt_trans.
Qed.

Lemma string_compare_refl (s : string) : String.compare s s = Eq.
Proof.
  induction s as [|a s IH]; simpl; [reflexivity|].
  rewrite ascii_compare_refl. exact IH.
Qed.

Lemma string_compare_eq (s t : string) : String.compare s t = Eq <-> s = t.
Proof.
  split; [apply String.compare_eq_iff|].
  intros ->. apply string_compare_refl.
Qed.

Lemma string_compare_gt_lt (s t : string) :
  String.compare s t = Gt <-> String.compare t s = Lt.
Proof.
  rewrite (String.compare_antisym s t).
  destruct (String.compare t s); simpl; split; congruence.
Qed.

Lemma string_compare_lt_trans (s t u : string) :
  String.compare s t = Lt -> String.compare t u = Lt -> String.compare s u = Lt.
Proof.
  revert t u. induction s as [|a s IH]; intros [|b t] [|c u]; simpl; try congruence.
  destruct (Ascii.compare a b) eqn:Hab; try congruence;
    destruct (Ascii.compare b c) eqn:Hbc; try congruence.
  - apply Ascii.compare_eq_iff in Hab, Hbc. subst.
    rewrite ascii_compare_refl. apply IH.
  - apply Ascii.compare_eq_iff in Hab. subst. rewrite Hbc. reflexivity.
  - apply Ascii.compare_eq_iff in Hbc. subst. rewrite Hab. reflexivity.
  - rewrite (ascii_compare_lt_trans a b c Hab Hbc). reflexivity.
Qed.

Lemma ltb_lt (s t : string) : String.ltb s t = true <-> String.compare s t = Lt.
Proof. unfold String.ltb. destruct (String.compare s t); split; congruence. Qed.

Lemma ltb_irrefl (s : string) : String.ltb s s = false.
Proof. unfold String.ltb. rewrite string_compare_refl. reflexivity. Qed.

Lemma ltb_trans (s t u : string) :
  String.ltb s t = true -> String.ltb t u = true -> String.ltb s u = true.
Proof. rewrite !ltb_lt. apply string_compare_lt_trans. Qed.

Lemma ltb_asym (s t : string) : String.ltb s t = true -> String.ltb t s = false.
Proof.
  intros Hst. destruct (String.ltb t s) eqn:Hts; [|reflexivity].
  pose proof (ltb_trans _ _ _ Hst Hts) as H. rewrite ltb_irrefl in H. discriminate.
Qed.

Lemma ltb_connex (s t : string) :
  String.ltb s t = false -> String.ltb t s = false -> s = t.
Proof.
  unfold String.ltb. destruct (String.compare s t) eqn:Hst; try discriminate.
  - intros _ _. now apply String.compare_eq_iff.
  - apply string_compare_gt_lt in Hst. rewrite Hst. discriminate.
Qed.

Lemma Compare_eq_0 (s t : string) : GoStrings.Compare s t = 0 <-> s = t.
Proof.
  unfold GoStrings.Compare. rewrite <- string_compare_eq.
  destruct (String.compare s t); split; intros; congruence || lia.
Qed.

Lemma Compare_refl (s : string) : GoStrings.Compare s s = 0.
Proof. now apply Compare_eq_0. Qed.

End StringOrder.

(** ** The order of [Less] *)

Section LessOrder.

Lemma Less_irrefl (a : queryEntry) : Less a a = false.
Proof. unfold Less, GoStrings.lt, GoStrings.gt. now rewrite !ltb_irrefl. Qed.

Lemma Less_spec (a b : queryEntry) :
  Less a b = true <->
  String.ltb (Name a) (Name b) = true
  \/ (Name a = Name b /\ String.ltb (Value a) (Value b) = true).
Proof.
  unfold Less, GoStrings.lt, GoStrings.gt.
  destruct (String.ltb (Name a) (Name b)) eqn:Hab; [tauto|].
  destruct (String.ltb (Name b) (Name a)) eqn:Hba.
  - split; [discriminate|]. intros [?|[Heq _]]; [discriminate|].
    rewrite Heq, ltb_irrefl in Hba. discriminate.
  - pose proof (ltb_connex _ _ Hab Hba). split; [tauto|].
    intros [?|[_ ?]]; [discriminate|assumption].
Qed.

Lemma Less_trans (a b c : queryEntry) :
  Less a b = true -> Less b c = true -> Less a c = true.
Proof.
  rewrite !Less_spec. intros [Hab|[Hab Hab']] [Hbc|[Hbc Hbc']].
  - left. eapply ltb_trans; eassumption.
  - left. now rewrite <- Hbc.
  - left. now rewrite Hab.
  - right. split; [congruence|]. eapply ltb_trans; eassumption.
Qed.

Lemma Less_asym (a b : queryEntry) : Less a b = true -> Less b a = false.
Proof.
  intros Hab. destruct (Less b a) eqn:Hba; [|reflexivity].
  pose proof (Less_trans _ _ _ Hab Hba) as H. now rewrite Less_irrefl in H.
Qed.

(** Two entries neither of which is [Less] than the other are equal. *)
Lemma Less_incomparable (a b : queryEntry) :
  Less a b = false -> Less b a = false -> a = b.
Proof.
  intros Hab Hba. destruct a as [na va], b as [nb vb].
  assert (Hn : na = nb).
  { apply ltb_connex.
    - destruct (String.ltb na nb) eqn:E; [|reflexivity].
      assert (Less (mkQueryEntry na va) (mkQueryEntry nb vb) = true)
        by (apply Less_spec; now left). congruence.
    - destruct (String.ltb nb na) eqn:E; [|reflexivity].
      assert (Less (mkQueryEntry nb vb) (mkQueryEntry na va) = true)
        by (apply Less_spec; now left). congruence. }
  subst nb. f_equal. apply ltb_connex.
  - destruct (String.ltb va vb) eqn:E; [|reflexivity].
    assert (Less (mkQueryEntry na va) (mkQueryEntry na vb) = true)
      by (apply Less_spec; now right). congruence.
  - destruct (String.ltb vb va) eqn:E; [|reflexivity].
    assert (Less (mkQueryEntry na vb) (mkQueryEntry na va) = true)
      by (apply Less_spec; now right). congruence.
Qed.

#[global] Instance notAfter_total : Total notAfter.
Proof.
  intros a b. unfold notAfter.
  destruct (Less b a) eqn:Hba; [right; now apply Less_asym | now left].
Qed.

#[global] Instance notAfter_trans : Transitive notAfter.
Proof.
  intros a b c. unfold notAfter. intros Hba Hcb.
  destruct (Less c a) eqn:Hca; [|reflexivity].
  destruct (Less b c) eqn:Hbc.
  - pose proof (Less_trans _ _ _ Hbc Hca). congruence.
  - pose proof (Less_incomparable _ _ Hbc Hcb). subst. congruence.
Qed.

#[global] Instance notAfter_antisym : AntiSymm (=) notAfter.
Proof. intros a b Hab Hba. now apply Less_incomparable. Qed.

(** [sort.Sort] puts the entries in the one sorted order there is: every
    sorted permutation of the input is the list that [sort_Sort] returns. *)
Lemma sort_Sort_unique (entries sorted : queryRoute) :
  sorted ≡ₚ entries -> Sorted notAfter sorted -> sort_Sort entries = sorted.
Proof.
  intros Hperm Hsorted. apply (Sorted_unique notAfter).
  - apply Sorted_merge_sort, _.
  - exact Hsorted.
  - unfold sort_Sort. now rewrite merge_sort_Permutation.
Qed.

End LessOrder.

(** ** [sort.Search] and [searchRange] *)

Section Search.

Lemma midpoint_bounds (i j : nat) :
  (i < j)%nat -> (i <= (i + j) / 2 < j)%nat.
Proof.
  intros Hlt. pose proof (Nat.div_mod_eq (i + j) 2).
  pose proof (Nat.mod_upper_bound (i + j) 2). lia.
Qed.

Lemma searchLoop_bounds (fuel : nat) (f : nat -> bool) (i j : nat) :
  (i <= j)%nat ->
  (i <= searchLoop fuel f i j)%nat /\ (searchLoop fuel f i j <= j)%nat.
Proof.
  revert i j. induction fuel as [|fuel IH]; intros i j Hij; cbn [searchLoop negb]; [lia|].
  destruct (Nat.ltb_spec i j) as [Hlt|Hge]; [|lia].
  pose proof (midpoint_bounds i j Hlt) as Hh.
  destruct (f ((i + j) / 2)%nat); cbn [searchLoop negb].
  - destruct (IH i ((i + j) / 2)%nat ltac:(lia)); lia.
  - destruct (IH ((i + j) / 2 + 1)%nat j ltac:(lia)); lia.
Qed.

(** The loop has ended by itself when the fuel covers the interval: more
    fuel gives the same index. *)
Lemma searchLoop_fuel (fuel fuel' : nat) (f : nat -> bool) (i j : nat) :
  (j - i <= fuel)%nat -> (j - i <= fuel')%nat ->
  searchLoop fuel f i j = searchLoop fuel' f i j.
Proof.
  revert fuel' i j. induction fuel as [|fuel IH]; intros [|fuel'] i j H H'; cbn [searchLoop negb];
    try reflexivity;
    try (destruct (Nat.ltb_spec i j); [lia | reflexivity]).
  destruct (Nat.ltb_spec i j) as [Hlt|Hge]; [|reflexivity].
  pose proof (midpoint_bounds i j Hlt) as Hh.
  destruct (f ((i + j) / 2)%nat); cbn [searchLoop negb]; apply IH; lia.
Qed.

(** The search only asks [f] about indexes inside the interval. *)
Lemma searchLoop_ext (fuel : nat) (f g : nat -> bool) (i j : nat) :
  (forall h, (i <= h < j)%nat -> f h = g h) ->
  searchLoop fuel f i j = searchLoop fuel g i j.
Proof.
  revert i j. induction fuel as [|fuel IH]; intros i j Hfg; cbn [searchLoop negb]; [reflexivity|].
  destruct (Nat.ltb_spec i j) as [Hlt|Hge]; [|reflexivity].
  pose proof (midpoint_bounds i j Hlt) as Hh.
  rewrite <- (Hfg _ Hh).
  destruct (f ((i + j) / 2)%nat); cbn [searchLoop negb]; apply IH; intros; apply Hfg; lia.
Qed.

Lemma sort_Search_le (n : nat) (f : nat -> bool) : (sort_Search n f <= n)%nat.
Proof. unfold sort_Search. destruct (searchLoop_bounds n f 0 n); lia. Qed.

Lemma searchRange_bounds (n : nat) (fn : nat -> Z) (lo hi : nat) (found : bool) :
  searchRange n fn = (lo, hi, found) ->
  (lo <= n)%nat /\ (hi <= n)%nat /\ (found = true <-> (lo < hi)%nat).
Proof.
  unfold searchRange. intros [= <- <- <-].
  split; [apply sort_Search_le|]. split; [apply sort_Search_le|].
  rewrite Z.gtb_ltb, Z.ltb_lt. lia.
Qed.

End Search.

(** ** Validation of query routes *)

Section QueryRouteValidation.

Lemma mixedTests_nil : ~ mixedTests [].
Proof. intros (i & j & vi & vj & _ & Hi & _). discriminate. Qed.

Lemma mixedTests_cons (x : string) (l : list string) :
  mixedTests (x :: l) <->
  (x = ""%string /\ l <> []) \/ (x <> ""%string /\ ""%string ∈ l) \/ mixedTests l.
Proof.
  split.
  - intros (i & j & vi & vj & Hij & Hi & Hj & Hv).
    destruct j as [|j]; [lia|]. simpl in Hj.
    destruct i as [|i]; simpl in Hi.
    + injection Hi as ->. destruct Hv as [->|[Hne ->]].
      * left. split; [reflexivity|]. intros ->. discriminate.
      * right; left. split; [assumption|]. eapply list_elem_of_lookup_2, Hj.
    + right; right. exists i, j, vi, vj. repeat split; [lia|assumption..].
  - intros [[-> Hl]|[[Hne Hin]|(i & j & vi & vj & Hij & Hi & Hj & Hv)]].
    + destruct l as [|y l]; [congruence|].
      exists 0%nat, 1%nat, ""%string, y. repeat split; [lia|now left].
    + apply list_elem_of_lookup in Hin as [j Hj].
      exists 0%nat, (S j), x, ""%string. repeat split; [lia|assumption|now right].
    + exists (S i), (S j), vi, vj. repeat split; [lia|assumption..].
Qed.

Lemma scanParamValues_Ok (paramName : string) (paramValues : list string)
    (p v : bool) (entries entries' : queryRoute) :
  scanParamValues paramName paramValues p v entries = Ok entries' ->
  entries' = entries ++ map (mkQueryEntry paramName) paramValues.
Proof.
  revert p v entries.
  induction paramValues as [|x l IH]; intros p v entries; simpl.
  - intros [= <-]. now rewrite app_nil_r.
  - destruct p; [discriminate|].
    destruct (String.eqb x ""); [destruct v; [discriminate|]|];
      intros H; apply IH in H; rewrite H, <- app_assoc; reflexivity.
Qed.

Lemma scanParamValues_Err_kind (paramName : string) (paramValues : list string)
    (p v : bool) (entries : queryRoute) (e : error) :
  scanParamValues paramName paramValues p v entries = Err e ->
  e = ErrURLPatternInvalidQueryRoute.
Proof.
  revert p v entries.
  induction paramValues as [|x l IH]; intros p v entries; simpl; [discriminate|].
  destruct p; [congruence|].
  destruct (String.eqb x ""); [destruct v; [congruence|]|]; apply IH.
Qed.

Lemma scanParamValues_Err (paramName : string) (paramValues : list string)
    (p v : bool) (entries : queryRoute) :
  scanParamValues paramName paramValues p v entries
    = Err ErrURLPatternInvalidQueryRoute
  <-> (p = true /\ paramValues <> [])
      \/ (v = true /\ ""%string ∈ paramValues)
      \/ mixedTests paramValues.
Proof.
  revert p v entries.
  induction paramValues as [|x l IH]; intros p v entries; simpl.
  - split; [discriminate|].
    intros [[_ H]|[[_ H]|H]]; [congruence| |now apply mixedTests_nil in H].
    now apply elem_of_nil in H.
  - rewrite mixedTests_cons, elem_of_cons.
    destruct p.
    { split; [|reflexivity]. intros _. left. split; [reflexivity|discriminate]. }
    destruct (String.eqb_spec x "") as [->|Hne].
    + destruct v.
      { split; [|reflexivity]. intros _. right; left. split; [reflexivity|now left]. }
      rewrite IH. intuition congruence.
    + rewrite IH. destruct v; intuition congruence.
Qed.

Lemma scanParams_Ok (urlQueryParamsAndValues : url_Values)
    (entries entries' : queryRoute) :
  scanParams urlQueryParamsAndValues entries = Ok entries' ->
  entries' = entries ++ requestEntries urlQueryParamsAndValues.
Proof.
  revert entries.
  induction urlQueryParamsAndValues as [|[n vs] rest IH]; intros entries; simpl.
  - intros [= <-]. now rewrite app_nil_r.
  - destruct (scanParamValues n vs false false entries) as [es|e] eqn:Hscan;
      simpl; [|discriminate].
    intros H. apply IH in H. apply scanParamValues_Ok in Hscan.
    rewrite H, Hscan, <- app_assoc. reflexivity.
Qed.

Lemma scanParams_Err_kind (urlQueryParamsAndValues : url_Values)
    (entries : queryRoute) (e : error) :
  scanParams urlQueryParamsAndValues entries = Err e ->
  e = ErrURLPatternInvalidQueryRoute.
Proof.
  revert entries.
  induction urlQueryParamsAndValues as [|[n vs] rest IH]; intros entries; simpl;
    [discriminate|].
  destruct (scanParamValues n vs false false entries) as [es|e'] eqn:Hscan; simpl.
  - apply IH.
  - intros [= <-]. eapply scanParamValues_Err_kind, Hscan.
Qed.

Lemma scanParams_Err (urlQueryParamsAndValues : url_Values) (entries : queryRoute) :
  scanParams urlQueryParamsAndValues entries = Err ErrURLPatternInvalidQueryRoute
  <-> exists paramName paramValues,
        (paramName, paramValues) ∈ urlQueryParamsAndValues
        /\ mixedTests paramValues.
Proof.
  revert entries.
  induction urlQueryParamsAndValues as [|[n vs] rest IH]; intros entries; simpl.
  - split; [discriminate|]. intros (? & ? & H & _). now apply elem_of_nil in H.
  - destruct (scanParamValues n vs false false entries) as [es|e] eqn:Hscan; simpl.
    + rewrite IH. split.
      * intros (pn & pvs & Hin & Hmix). exists pn, pvs. split; [now right|assumption].
      * intros (pn & pvs & Hin & Hmix). apply elem_of_cons in Hin as [[= -> ->]|Hin].
        -- assert (Hbad : scanParamValues n vs false false entries
                          = Err ErrURLPatternInvalidQueryRoute)
             by (apply scanParamValues_Err; tauto).
           congruence.
        -- exists pn, pvs. tauto.
    + pose proof (scanParamValues_Err_kind _ _ _ _ _ _ Hscan) as ->.
      split; [|reflexivity]. intros _. exists n, vs. split; [now left|].
      apply scanParamValues_Err in Hscan as [[H _]|[[H _]|H]];
        [discriminate..|assumption].
Qed.

Lemma notAfter_byNameThenValue (a b : queryEntry) :
  notAfter a b -> byNameThenValue a b.
Proof.
  unfold notAfter, byNameThenValue. intros Hba.
  destruct (String.compare (Name a) (Name b)) eqn:Hn.
  - right. apply String.compare_eq_iff in Hn. split; [assumption|].
    intros Hgt. apply string_compare_gt_lt, ltb_lt in Hgt.
    assert (Less b a = true) by (apply Less_spec; right; now split).
    congruence.
  - now left.
  - apply string_compare_gt_lt, ltb_lt in Hn.
    assert (Less b a = true) by (apply Less_spec; now left). congruence.
Qed.

Lemma sort_Sort_byNameThenValue (entries : queryRoute) :
  Sorted byNameThenValue (sort_Sort entries).
Proof.
  assert (H : Sorted notAfter (sort_Sort entries)) by apply Sorted_merge_sort, _.
  induction H as [|a l Hl IH Hhd]; constructor; [assumption|].
  destruct Hhd; constructor. now apply notAfter_byNameThenValue.
Qed.

End QueryRouteValidation.

(** C8. Building a query route fails, and then with
    [ErrURLPatternInvalidQueryRoute], exactly when the values listed for some
    parameter name mix presence and value tests: a value after an earlier
    empty value, or an empty value after an earlier nonempty one.  When it
    succeeds the route holds every (name, value) pair of the parameters,
    sorted by name and then by value. *)
Theorem newQueryRoute_validation (urlQueryParamsAndValues : url_Values) :
  (newQueryRoute urlQueryParamsAndValues = Err ErrURLPatternInvalidQueryRoute
   <-> exists paramName paramValues,
         (paramName, paramValues) ∈ urlQueryParamsAndValues
         /\ mixedTests paramValues)
  /\ (forall e, newQueryRoute urlQueryParamsAndValues = Err e ->
                e = ErrURLPatternInvalidQueryRoute)
  /\ (forall route, newQueryRoute urlQueryParamsAndValues = Ok route ->
        Sorted byNameThenValue route
        /\ route ≡ₚ requestEntries urlQueryParamsAndValues).
Proof.
  unfold newQueryRoute.
  destruct (scanParams urlQueryParamsAndValues []) as [es|e] eqn:Hscan; simpl.
  - split; [|split].
    + split; [discriminate|]. intros H. apply (scanParams_Err _ []) in H. congruence.
    + discriminate.
    + intros route [= <-]. split; [apply sort_Sort_byNameThenValue|].
      apply scanParams_Ok in Hscan. subst es. simpl.
      unfold sort_Sort. apply merge_sort_Permutation.
  - pose proof (scanParams_Err_kind _ _ _ Hscan) as ->.
    split; [|split].
    + split; [|reflexivity]. intros _. eapply scanParams_Err, Hscan.
    + now intros e [= <-].
    + discriminate.
Qed.

(** The route of [?tag=b&tag=a] is sorted. *)
Lemma newQueryRoute_validation_witness :
  Sorted byNameThenValue [mkQueryEntry "tag" "a"; mkQueryEntry "tag" "b"].
Proof.
  apply (proj2 (proj2 (newQueryRoute_validation [("tag", ["b"; "a"])]%string))).
  reflexivity.
Defined.

(** ** The routing table *)

Section RouterProperties.

Variable url_Parse : string -> option url.URL.
Variable url_Query : url.URL -> url_Values.
Variable url_EscapedPath : url.URL -> string.

(** C9. When [Handle] or [RemoveHandler] returns an error, whichever it is,
    the [Mux] is what it was before the call. *)
Theorem mutation_atomic_on_error (m : Mux) (httpMethod urlPattern : string)
    (handler : option http.Handler) (err : error) :
  (fst (Handle url_Parse url_Query m httpMethod urlPattern handler) = Some err ->
   snd (Handle url_Parse url_Query m httpMethod urlPattern handler) = m)
  /\ (fst (RemoveHandler url_Parse url_Query m httpMethod urlPattern) = Some err ->
      snd (RemoveHandler url_Parse url_Query m httpMethod urlPattern) = m).
Proof.
  split.
  - unfold Handle.
    destruct (newMuxRoute url_Parse url_Query httpMethod urlPattern) as [r|e];
      [|reflexivity].
    destruct handler as [h|]; [|reflexivity].
    destruct (searchRange _ _) as [[i hi] found].
    destruct found; [reflexivity|discriminate].
  - unfold RemoveHandler.
    destruct (newMuxRoute url_Parse url_Query httpMethod urlPattern) as [r|e];
      [|reflexivity].
    destruct (searchRange _ _) as [[i hi] found].
    destruct found; [discriminate|reflexivity].
Qed.

(** [Handle] fails with the conflict error exactly when the binary search
    with the Dynamic comparator finds a range that is not empty, and puts the
    entry at the index the search gives otherwise. *)
Lemma Handle_conflict (m : Mux) (httpMethod urlPattern : string) (h : http.Handler)
    (r : muxRoute) (i hi : nat) (found : bool) :
  newMuxRoute url_Parse url_Query httpMethod urlPattern = Ok r ->
  searchRange (length (entries m))
    (fun i => compareDynamicRoutes r (route (entries m !!! i))) = (i, hi, found) ->
  Handle url_Parse url_Query m httpMethod urlPattern (Some h)
  = if found then (Some ErrRouteMustNotConflict, m)
    else (None, {| NotFoundHandler := NotFoundHandler m;
                   entries := take i (entries m)
                              ++ {| route := r; handler := h |} :: drop i (entries m) |}).
Proof. intros Hr Hsearch. unfold Handle. rewrite Hr, Hsearch. reflexivity. Qed.

End RouterProperties.

(** A conflicting [Handle] and a [RemoveHandler] of an absent route leave the
    table alone. *)
Lemma mutation_atomic_on_error_witness :
  snd (Examples.register Examples.fixedTable "GET" "http://h/{a}" 1) = Examples.fixedTable
  /\ snd (Examples.remove Examples.fixedTable "GET" "http://h/other") = Examples.fixedTable.
Proof.
  split.
  - apply (proj1 (mutation_atomic_on_error Plain.Parse Plain.Query Examples.fixedTable
                    "GET" "http://h/{a}" (Some (http.handlerRef 1))
                    ErrRouteMustNotConflict)).
    vm_compute. reflexivity.
  - apply (proj2 (mutation_atomic_on_error Plain.Parse Plain.Query Examples.fixedTable
                    "GET" "http://h/other" None ErrRouteMustExist)).
    vm_compute. reflexivity.
Defined.

(** ** The defects found by running the router *)

(** C1. [Handle] accepts [?a=9&b=1] into a table that holds [?a&b=1] and
    [?a=5&b=2], although the Dynamic comparator is zero between the new
    route and the first entry: the binary search only probes the second. *)
Theorem Handle_stores_conflicting_routes :
  fst (Examples.register Examples.emptyMux "PUT" "http://h?a&b=1" 0) = None
  /\ fst (Examples.register Examples.queryTable1 "PUT" "http://h?a=5&b=2" 1) = None
  /\ fst (Examples.register Examples.queryTable2 "PUT" "http://h?a=9&b=1" 2) = None
  /\ exists e0 e2,
       entries Examples.queryTable3 !! 0%nat = Some e0
       /\ entries Examples.queryTable3 !! 2%nat = Some e2
       /\ compareDynamicRoutes (route e0) (route e2) = 0
       /\ compareDynamicRoutes (route e2) (route e0) = 0.
Proof.
  repeat split; try (vm_compute; reflexivity).
  eexists _, _. repeat split; vm_compute; reflexivity.
Qed.

(** C2. After [/{a}/x] is registered next to [/{b}/c], removing [/{a}/x] by
    its own spelling reports success and deletes [/{b}/c]: the table does not
    return to what it was. *)
Theorem RemoveHandler_deletes_another_route :
  fst (Examples.register Examples.varTable1 "GET" "http://h/{a}/x" 1) = None
  /\ fst (Examples.remove Examples.varTable2 "GET" "http://h/{a}/x") = None
  /\ map (fun e => path (route e)) (entries Examples.varTable1) = [["{b}"; "c"]]%string
  /\ map (fun e => path (route e))
         (entries (snd (Examples.remove Examples.varTable2 "GET" "http://h/{a}/x")))
     = [["{a}"; "x"]]%string
  /\ snd (Examples.remove Examples.varTable2 "GET" "http://h/{a}/x") <> Examples.varTable1.
Proof.
  repeat split; try (vm_compute; reflexivity).
  intros H. apply (f_equal (fun m => map (fun e => handler e) (entries m))) in H.
  vm_compute in H. discriminate.
Qed.

(** C4. Two requests for [/fixed] that differ in their query string only
    get different results from the Request comparator against the route
    [/fixed], because the segments are cut out of [RequestURI()]; the second
    request is not dispatched to the route. *)
Theorem compareRequestRoute_depends_on_query :
  exists e, entries Examples.fixedTable = [e]
    /\ compareRequestRoute Plain.EscapedPath (Examples.get "/fixed" "") (route e) = 0
    /\ compareRequestRoute Plain.EscapedPath (Examples.get "/fixed" "x=1") (route e) = 1
    /\ ServeHTTP Plain.Query Plain.EscapedPath Examples.fixedTable
         (Examples.get "/fixed" "") = servedBy (handler e)
    /\ ServeHTTP Plain.Query Plain.EscapedPath Examples.fixedTable
         (Examples.get "/fixed" "x=1") = notFound None.
Proof.
  eexists. split; [vm_compute; reflexivity|].
  repeat split; vm_compute; reflexivity.
Qed.

(** C10. With the route [/{a}/{b}] registered, the request [/x?q=a/b]
    matches (its [RequestURI()] has two segments) and [PathVars] then reads
    index 1 of the one segment of its path: a run-time panic. *)
Theorem PathVars_index_out_of_range :
  fst (Examples.register Examples.emptyMux "GET" "http://h/{a}/{b}" 0) = None
  /\ splitPathSegs (url.Path (http.URL (Examples.get "/x" "q=a/b"))) = ["x"]%string
  /\ (exists e, entries Examples.twoVarsTable = [e] /\ vars (route e) !! "b"%string = Some 1%nat)
  /\ Examples.pathVars Examples.twoVarsTable (Examples.get "/x" "q=a/b") = None.
Proof.
  split; [vm_compute; reflexivity|]. split; [vm_compute; reflexivity|].
  split; [|vm_compute; reflexivity].
  eexists. split; vm_compute; reflexivity.
Qed.

(** ** Loops with an early return *)

Section ForRange.

Context {A : Type}.

Lemma forRange_none (body : nat -> option A) (idxs : list nat) :
  (forall i, i ∈ idxs -> body i = None) -> forRange body idxs = None.
Proof.
  induction idxs as [|i idxs IH]; intros Hnone; simpl; [reflexivity|].
  rewrite (Hnone i) by now left.
  apply IH. intros j Hj. apply Hnone. now right.
Qed.

(** The loop returns what its body returns at the first index where the
    body returns at all. *)
Lemma forRange_first (body : nat -> option A) (start len i : nat) (r : A) :
  (start <= i < start + len)%nat ->
  (forall j, (start <= j < i)%nat -> body j = None) ->
  body i = Some r ->
  forRange body (seq start len) = Some r.
Proof.
  revert start. induction len as [|len IH]; intros start Hi Hbefore Hat; [lia|].
  simpl. destruct (decide (start = i)) as [->|Hne].
  - now rewrite Hat.
  - rewrite Hbefore by lia. apply IH; [lia| |assumption].
    intros j Hj. apply Hbefore. lia.
Qed.

End ForRange.

(** ** The comparators *)

Section Comparators.

Lemma compareMethodSchemeHost_refl (m s h : string) :
  compareMethodSchemeHost m m s s h h = 0.
Proof. unfold compareMethodSchemeHost. now rewrite !Compare_refl. Qed.

Lemma compareStaticRoutes_refl (r : muxRoute) : compareStaticRoutes r r = 0.
Proof.
  unfold compareStaticRoutes. rewrite compareMethodSchemeHost_refl. simpl.
  rewrite forRange_none
    by (intros i _; unfold staticSegment; now rewrite Compare_refl).
  rewrite !Z.sub_diag. simpl.
  rewrite forRange_none
    by (intros i _; unfold staticQueryEntry; now rewrite !Compare_refl).
  reflexivity.
Qed.

(** A table of one entry: the search finds the entry when the comparator is
    zero on it, and nothing otherwise. *)
Lemma searchRange_one (fn : nat -> Z) :
  searchRange 1 fn = if fn 0%nat =? 0 then (0%nat, 1%nat, true)
                     else if fn 0%nat <? 0 then (0%nat, 0%nat, false)
                     else (1%nat, 1%nat, false).
Proof.
  unfold searchRange, sort_Search. cbn [searchLoop Nat.ltb Nat.leb].
  change ((0 + 1) / 2)%nat with 0%nat.
  destruct (Z.eqb_spec (fn 0%nat) 0) as [->|Hne]; [reflexivity|].
  destruct (Z.ltb_spec (fn 0%nat) 0) as [Hlt|Hge].
  - replace (fn 0%nat <=? 0) with true by (symmetry; apply Z.leb_le; lia).
    reflexivity.
  - replace (fn 0%nat <=? 0) with false by (symmetry; apply Z.leb_gt; lia).
    reflexivity.
Qed.

(** At a position where one segment is a variable and the other is not, the
    body of the path loop of the Dynamic comparator returns zero. *)
Lemma dynamicSegment_variable_vs_literal (r1 r2 : muxRoute) (i : nat) :
  varSeg (path r1 !!! i) <> varSeg (path r2 !!! i) ->
  dynamicSegment r1 r2 i = Some 0.
Proof.
  intros Hdiff. unfold dynamicSegment.
  destruct (_ || _); [reflexivity|].
  destruct (varSeg (path r1 !!! i)), (varSeg (path r2 !!! i)); simpl;
    congruence.
Qed.

End Comparators.

(** C3 (as the code has it). When method, scheme and host agree, no earlier
    segment has decided, and at position [i] exactly one of the two segments
    is a variable, the Dynamic comparator stops at [i] and returns zero for
    the whole comparison, whatever the later segments, the path lengths and
    the queries are. *)
Theorem compareDynamicRoutes_variable_vs_literal (r1 r2 : muxRoute) (i : nat) :
  compareMethodSchemeHost (method r1) (method r2) (scheme r1) (scheme r2)
    (host r1) (host r2) = 0 ->
  (i < length (path r1))%nat ->
  (i < length (path r2))%nat ->
  (forall j, (j < i)%nat -> dynamicSegment r1 r2 j = None) ->
  varSeg (path r1 !!! i) <> varSeg (path r2 !!! i) ->
  dynamicSegment r1 r2 i = Some 0 /\ compareDynamicRoutes r1 r2 = 0.
Proof.
  intros Hmsh Hi1 Hi2 Hbefore Hdiff.
  pose proof (dynamicSegment_variable_vs_literal r1 r2 i Hdiff) as Hat.
  split; [exact Hat|].
  unfold compareDynamicRoutes. rewrite Hmsh. simpl.
  rewrite (forRange_first (dynamicSegment r1 r2) 0 _ i 0); [reflexivity|lia| |exact Hat].
  intros j Hj. apply Hbefore. lia.
Qed.

(** [/{a}/x] against [/fixed/y]: a conflict, decided at the first segment. *)
Lemma compareDynamicRoutes_variable_vs_literal_witness :
  dynamicSegment Examples.variableRoute Examples.literalRoute 0 = Some 0
  /\ compareDynamicRoutes Examples.variableRoute Examples.literalRoute = 0.
Proof.
  apply (compareDynamicRoutes_variable_vs_literal
           Examples.variableRoute Examples.literalRoute 0).
  - reflexivity.
  - simpl. lia.
  - simpl. lia.
  - intros j Hj. lia.
  - vm_compute. discriminate.
Defined.

(** C3 (as specified) fails on [/{a}/x] against [/fixed/y]: both are parsed
    patterns, at position 0 exactly one segment is a variable and neither is
    a final wildcard, yet the loop body returns there instead of going on,
    and the comparator says zero although the segments after position 0,
    [x] and [y], compare as -1. *)
Lemma compareDynamicRoutes_variable_vs_literal_counterexample :
  newMuxRoute Plain.Parse Plain.Query "GET" "http://h/{a}/x" = Ok Examples.variableRoute
  /\ newMuxRoute Plain.Parse Plain.Query "GET" "http://h/fixed/y" = Ok Examples.literalRoute
  /\ varSeg (path Examples.variableRoute !!! 0%nat) = true
  /\ varSeg (path Examples.literalRoute !!! 0%nat) = false
  /\ path Examples.variableRoute !!! 0%nat <> "{*}"%string
  /\ path Examples.literalRoute !!! 0%nat <> "{*}"%string
  /\ dynamicSegment Examples.variableRoute Examples.literalRoute 0 <> None
  /\ dynamicSegment Examples.variableRoute Examples.literalRoute 1 = Some (-1)
  /\ compareDynamicRoutes Examples.variableRoute Examples.literalRoute = 0.
Proof.
  repeat split; try (vm_compute; reflexivity); vm_compute; discriminate.
Qed.

(** ** Parsing a pattern, registering it, removing it *)

Section PatternFacts.

Variable url_Parse : string -> option url.URL.
Variable url_Query : url.URL -> url_Values.

(** What a successful [newMuxRoute] has read from the parsed URL. *)
Lemma newMuxRoute_Ok (httpMethod urlPattern : string) (r : muxRoute) :
  newMuxRoute url_Parse url_Query httpMethod urlPattern = Ok r ->
  exists u vs q,
    url_Parse urlPattern = Some u
    /\ urlPattern <> ""%string
    /\ containsString defaultAllowedHTTPMethods httpMethod = true
    /\ scanPathVars (Z.of_nat (length (splitPathSegs (url.Path u))) - 1) 0
         (splitPathSegs (url.Path u)) ∅ = Ok vs
    /\ newQueryRoute (url_Query u) = Ok q
    /\ r = {| method := httpMethod; scheme := url.Scheme u; host := url.Host u;
              path := splitPathSegs (url.Path u); vars := vs; query := q |}.
Proof.
  unfold newMuxRoute.
  destruct (containsString defaultAllowedHTTPMethods httpMethod) eqn:Hm;
    cbn [negb]; [|discriminate].
  destruct (String.eqb_spec urlPattern "") as [|Hne]; [discriminate|].
  destruct (url_Parse urlPattern) as [u|] eqn:Hp; [|discriminate].
  destruct (url.IsAbs u); cbn [negb]; [|discriminate].
  destruct (containsString defaultAllowedSchemes (url.Scheme u));
    cbn [negb]; [|discriminate].
  destruct (String.eqb (url.Host u) ""); [discriminate|].
  destruct (GoStrings.HasPrefix (url.Host u) ":"); [discriminate|].
  destruct (scanPathVars _ _ _ _) as [vs|] eqn:Hv; cbn [bind]; [|discriminate].
  destruct (newQueryRoute (url_Query u)) as [q|] eqn:Hq; cbn [bind]; [|discriminate].
  intros [= <-]. exists u, vs, q. repeat split; assumption || reflexivity.
Qed.

(** Two patterns with the same method whose URLs have the same scheme, host,
    path segments and query parameters give the same route. *)
Lemma newMuxRoute_same_segments (httpMethod pattern1 pattern2 : string)
    (u1 u2 : url.URL) (r1 r2 : muxRoute) :
  url_Parse pattern1 = Some u1 ->
  url_Parse pattern2 = Some u2 ->
  url.Scheme u1 = url.Scheme u2 ->
  url.Host u1 = url.Host u2 ->
  url_Query u1 = url_Query u2 ->
  splitPathSegs (url.Path u1) = splitPathSegs (url.Path u2) ->
  newMuxRoute url_Parse url_Query httpMethod pattern1 = Ok r1 ->
  newMuxRoute url_Parse url_Query httpMethod pattern2 = Ok r2 ->
  r1 = r2.
Proof.
  intros Hp1 Hp2 Hs Hh Hq Hsegs H1 H2.
  apply newMuxRoute_Ok in H1 as (u1' & vs1 & q1 & Hp1' & _ & _ & Hv1 & Hq1 & ->).
  apply newMuxRoute_Ok in H2 as (u2' & vs2 & q2 & Hp2' & _ & _ & Hv2 & Hq2 & ->).
  assert (u1' = u1) by congruence. assert (u2' = u2) by congruence. subst.
  rewrite Hsegs in Hv1. rewrite Hq in Hq1.
  assert (vs1 = vs2) by congruence. assert (q1 = q2) by congruence. subst.
  now rewrite Hs, Hh, Hsegs.
Qed.

(** [Handle] on the empty table. *)
Lemma Handle_empty (nf : option http.Handler) (httpMethod urlPattern : string)
    (h : http.Handler) (r : muxRoute) :
  newMuxRoute url_Parse url_Query httpMethod urlPattern = Ok r ->
  Handle url_Parse url_Query {| NotFoundHandler := nf; entries := [] |}
    httpMethod urlPattern (Some h)
  = (None, {| NotFoundHandler := nf; entries := [ {| route := r; handler := h |} ] |}).
Proof. intros Hr. unfold Handle. rewrite Hr. reflexivity. Qed.

(** [RemoveHandler] on a table of one entry whose route is statically equal
    to the one asked for. *)
Lemma RemoveHandler_single (nf : option http.Handler) (httpMethod urlPattern : string)
    (e : muxEntry) (r : muxRoute) :
  newMuxRoute url_Parse url_Query httpMethod urlPattern = Ok r ->
  compareStaticRoutes r (route e) = 0 ->
  RemoveHandler url_Parse url_Query {| NotFoundHandler := nf; entries := [e] |}
    httpMethod urlPattern
  = (None, {| NotFoundHandler := nf; entries := [] |}).
Proof.
  intros Hr Hcmp. unfold RemoveHandler. rewrite Hr. cbn [entries length].
  rewrite searchRange_one. cbn [lookup_total list_lookup_total]. rewrite Hcmp.
  reflexivity.
Qed.

(** C6 (as the code has it). [splitPathSegs] trims the slashes at both ends,
    so the patterns [/fixed/] and [/fixed] (same method, scheme, host and
    query) parse to the same route: the Static comparator is zero between
    them, and after one of them is registered in an empty table,
    [RemoveHandler] with the other spelling succeeds and deletes the entry. *)
Theorem trailing_slash_same_static_identity
    (httpMethod pattern1 pattern2 : string) (u1 u2 : url.URL) (r1 r2 : muxRoute)
    (h : http.Handler) (nf : option http.Handler) :
  url_Parse pattern1 = Some u1 ->
  url_Parse pattern2 = Some u2 ->
  url.Scheme u1 = url.Scheme u2 ->
  url.Host u1 = url.Host u2 ->
  url_Query u1 = url_Query u2 ->
  url.Path u1 = "/fixed/"%string ->
  url.Path u2 = "/fixed"%string ->
  newMuxRoute url_Parse url_Query httpMethod pattern1 = Ok r1 ->
  newMuxRoute url_Parse url_Query httpMethod pattern2 = Ok r2 ->
  compareStaticRoutes r1 r2 = 0
  /\ compareStaticRoutes r2 r1 = 0
  /\ RemoveHandler url_Parse url_Query
       (snd (Handle url_Parse url_Query {| NotFoundHandler := nf; entries := [] |}
               httpMethod pattern1 (Some h)))
       httpMethod pattern2
     = (None, {| NotFoundHandler := nf; entries := [] |})
  /\ RemoveHandler url_Parse url_Query
       (snd (Handle url_Parse url_Query {| NotFoundHandler := nf; entries := [] |}
               httpMethod pattern2 (Some h)))
       httpMethod pattern1
     = (None, {| NotFoundHandler := nf; entries := [] |}).
Proof.
  intros Hp1 Hp2 Hs Hh Hq Hpath1 Hpath2 Hr1 Hr2.
  assert (Heq : r1 = r2).
  { apply (newMuxRoute_same_segments httpMethod pattern1 pattern2 u1 u2 r1 r2
             Hp1 Hp2 Hs Hh Hq); [|assumption..].
    rewrite Hpath1, Hpath2. reflexivity. }
  subst r2. rewrite compareStaticRoutes_refl.
  repeat split.
  - rewrite (Handle_empty nf httpMethod pattern1 h r1 Hr1). simpl.
    apply (RemoveHandler_single nf httpMethod pattern2 _ r1 Hr2).
    apply compareStaticRoutes_refl.
  - rewrite (Handle_empty nf httpMethod pattern2 h r1 Hr2). simpl.
    apply (RemoveHandler_single nf httpMethod pattern1 _ r1 Hr1).
    apply compareStaticRoutes_refl.
Qed.

End PatternFacts.

(** [http://h/fixed/] and [http://h/fixed]. *)
Lemma trailing_slash_same_static_identity_witness :
  Examples.remove Examples.fixedSlashTable "GET" "http://h/fixed"
  = (None, Examples.emptyMux)
  /\ Examples.remove Examples.fixedTable "GET" "http://h/fixed/"
     = (None, Examples.emptyMux).
Proof.
  refine (proj2 (proj2
    (trailing_slash_same_static_identity Plain.Parse Plain.Query
       "GET" "http://h/fixed/" "http://h/fixed"
       (url.mkURL "http" "" "h" "/fixed/" "" false "")
       (url.mkURL "http" "" "h" "/fixed" "" false "")
       (Examples.routeOf ["fixed"]%string ∅ [])
       (Examples.routeOf ["fixed"]%string ∅ [])
       (http.handlerRef 0) None _ _ _ _ _ _ _ _ _)));
    vm_compute; reflexivity.
Defined.

(** C6 (as specified) fails: the Static comparator is zero between the
    routes of [/fixed/] and [/fixed], and removing [/fixed] from a table that
    holds [/fixed/] does not fail with [ErrRouteMustExist]. *)
Lemma trailing_slash_counterexample :
  (exists r1 r2,
     newMuxRoute Plain.Parse Plain.Query "GET" "http://h/fixed/" = Ok r1
     /\ newMuxRoute Plain.Parse Plain.Query "GET" "http://h/fixed" = Ok r2
     /\ compareStaticRoutes r1 r2 = 0)
  /\ fst (Examples.register Examples.emptyMux "GET" "http://h/fixed/" 0) = None
  /\ fst (Examples.remove Examples.fixedSlashTable "GET" "http://h/fixed")
     <> Some ErrRouteMustExist.
Proof.
  split; [|split].
  - eexists _, _. repeat split; vm_compute; reflexivity.
  - vm_compute. reflexivity.
  - vm_compute. discriminate.
Qed.

(** ** Path segments of a request URI *)

Section PathSegments.

Lemma TrimRight_keep (c : ascii) (s cutset : string) :
  GoStrings.inCutset c cutset = false ->
  GoStrings.TrimRight (String c s) cutset = String c (GoStrings.TrimRight s cutset).
Proof.
  intros Hc. cbn [GoStrings.TrimRight]. rewrite Hc.
  now destruct (GoStrings.TrimRight s cutset).
Qed.

Lemma TrimRight_inner (c : ascii) (s cutset : string) :
  GoStrings.TrimRight s cutset <> EmptyString ->
  GoStrings.TrimRight (String c s) cutset = String c (GoStrings.TrimRight s cutset).
Proof.
  intros Hne. cbn [GoStrings.TrimRight].
  now destruct (GoStrings.TrimRight s cutset).
Qed.

Lemma Split_nonempty (s : string) (sep : ascii) : GoStrings.Split s sep <> [].
Proof.
  destruct s as [|c s]; cbn [GoStrings.Split]; [discriminate|].
  destruct (Ascii.eqb c sep); [discriminate|].
  destruct (GoStrings.Split s sep); discriminate.
Qed.

Lemma Split_other (c : ascii) (s : string) (sep : ascii) :
  Ascii.eqb c sep = false ->
  exists piece pieces,
    GoStrings.Split s sep = piece :: pieces
    /\ GoStrings.Split (String c s) sep = String c piece :: pieces.
Proof.
  intros Hc. cbn [GoStrings.Split]. rewrite Hc.
  pose proof (Split_nonempty s sep) as Hne.
  destruct (GoStrings.Split s sep) as [|piece pieces]; [congruence|].
  now exists piece, pieces.
Qed.

(** A request URI that goes on after [/parent/x/y] has at least the three
    segments [parent], [x] and one that starts with [y]. *)
Lemma splitPathSegs_parent_x_y (q : string) :
  exists seg rest,
    splitPathSegs ("/parent/x/y" +:+ q) = "parent"%string :: "x"%string :: seg :: rest.
Proof.
  unfold splitPathSegs, GoStrings.Trim. cbv [String.append].
  cbn [GoStrings.TrimLeft GoStrings.inCutset Ascii.eqb Bool.eqb orb].
  set (t := GoStrings.TrimRight q "/").
  assert (Hy : GoStrings.TrimRight (String "y" q) "/" = String "y" t)
    by now apply TrimRight_keep.
  assert (Hxy : GoStrings.TrimRight (String "x" (String "/" (String "y" q))) "/"
                = String "x" (String "/" (String "y" t))).
  { rewrite TrimRight_keep by reflexivity.
    rewrite TrimRight_inner by (rewrite Hy; discriminate).
    now rewrite Hy. }
  rewrite !TrimRight_keep by reflexivity.
  rewrite TrimRight_inner by (rewrite Hxy; discriminate).
  rewrite Hxy.
  destruct (Split_other "y" t "/" eq_refl) as (piece & pieces & _ & Hsplit).
  cbn [GoStrings.Split Ascii.eqb Bool.eqb] in Hsplit |- *.
  rewrite Hsplit. now exists (String "y" piece), pieces.
Qed.

(** A request URI that is [/parent], or goes on after it with a query, has
    the one segment [parent] or starts with a segment that is longer. *)
Lemma splitPathSegs_parent (q : string) :
  q = EmptyString \/ (exists s, q = String "?" s) ->
  splitPathSegs ("/parent" +:+ q) = ["parent"%string]
  \/ exists piece rest,
       splitPathSegs ("/parent" +:+ q) = ("parent?" +:+ piece) :: rest.
Proof.
  intros [->|[s ->]]; [left; reflexivity|right].
  unfold splitPathSegs, GoStrings.Trim. cbv [String.append].
  cbn [GoStrings.TrimLeft GoStrings.inCutset Ascii.eqb Bool.eqb orb].
  set (t := GoStrings.TrimRight s "/").
  rewrite !TrimRight_keep by reflexivity. fold t.
  pose proof (Split_nonempty t "/") as Hne.
  cbn [GoStrings.Split Ascii.eqb Bool.eqb].
  destruct (GoStrings.Split t "/") as [|piece pieces]; [congruence|].
  exists piece, pieces. destruct pieces; reflexivity.
Qed.

End PathSegments.

(** ** Extraction of the wildcard *)

Section Wildcard.

Variable url_Parse : string -> option url.URL.
Variable url_Query : url.URL -> url_Values.
Variable url_EscapedPath : url.URL -> string.

(** The request URI of a URL that is not opaque: the escaped path, and the
    query after a question mark if there is one. *)
Lemma url_RequestURI_shape (u : url.URL) (p : string) :
  url.Opaque u = ""%string ->
  url_EscapedPath u = p ->
  p <> ""%string ->
  exists q, url_RequestURI url_EscapedPath u = p +:+ q
            /\ (q = EmptyString \/ exists s, q = String "?" s).
Proof.
  intros Hop Hesc Hp. unfold url_RequestURI. rewrite Hop, Hesc. cbn [String.eqb].
  destruct (String.eqb_spec p "") as [|_]; [congruence|].
  destruct (url.ForceQuery u || negb (String.eqb (url.RawQuery u) "")).
  - exists (String "?" (url.RawQuery u)). split; [reflexivity|right; eauto].
  - exists EmptyString. split; [|now left].
    clear. induction p as [|c p IH]; [reflexivity|]. cbv [String.append] in *.
    now rewrite <- IH at 1.
Qed.

(** The route of a pattern whose path is [/parent/{*}]. *)
Lemma newMuxRoute_parent_wildcard (httpMethod urlPattern : string) (u : url.URL)
    (r : muxRoute) :
  url_Parse urlPattern = Some u ->
  url.Path u = "/parent/{*}"%string ->
  newMuxRoute url_Parse url_Query httpMethod urlPattern = Ok r ->
  method r = httpMethod /\ scheme r = url.Scheme u /\ host r = url.Host u
  /\ path r = ["parent"; "{*}"]%string
  /\ vars r = {["*"%string := 1%nat]}.
Proof.
  intros Hp Hpath Hr.
  apply newMuxRoute_Ok in Hr as (u' & vs & q & Hp' & _ & _ & Hv & _ & ->).
  assert (u' = u) by congruence. subst u'. rewrite Hpath in *.
  repeat split. vm_compute in Hv. injection Hv as <-. vm_compute. reflexivity.
Qed.

Lemma compareRequestRoute_method_scheme_host (req : http.Request) (r : muxRoute) :
  http.Method req = method r ->
  (if http.TLS req then "https"%string else "http"%string) = scheme r ->
  http.Host req = host r ->
  compareRequestRoute url_EscapedPath req r
  = let reqSegs := splitPathSegs (url_RequestURI url_EscapedPath (http.URL req)) in
    match forRange (requestSegment reqSegs r)
            (seq 0 (Nat.min (length reqSegs) (length (path r)))) with
    | Some c => c
    | None => Z.of_nat (length reqSegs) - Z.of_nat (length (path r))
    end.
Proof.
  intros Hm Hs Hh. unfold compareRequestRoute.
  rewrite Hm, Hs, Hh, compareMethodSchemeHost_refl. reflexivity.
Qed.

(** C5 (as the code has it). In a table that holds only a pattern whose path
    is [/parent/{*}], [PathVars] on a matching request for [/parent/x/y]
    returns the mapping of [*] to [x/y]; on a request for [/parent] the
    pattern does not match (it has one segment more than the request) and
    [PathVars] returns the empty mapping. *)
Theorem PathVars_wildcard (httpMethod urlPattern : string) (u : url.URL)
    (h : http.Handler) (nf : option http.Handler) (m : Mux) (req : http.Request) :
  url_Parse urlPattern = Some u ->
  url.Path u = "/parent/{*}"%string ->
  Handle url_Parse url_Query {| NotFoundHandler := nf; entries := [] |}
    httpMethod urlPattern (Some h) = (None, m) ->
  http.Method req = httpMethod ->
  (if http.TLS req then "https"%string else "http"%string) = url.Scheme u ->
  http.Host req = url.Host u ->
  url.Opaque (http.URL req) = ""%string ->
  (url.Path (http.URL req) = "/parent/x/y"%string ->
   url_EscapedPath (http.URL req) = "/parent/x/y"%string ->
   PathVars url_EscapedPath m req = Some {["*"%string := "x/y"%string]})
  /\ (url.Path (http.URL req) = "/parent"%string ->
      url_EscapedPath (http.URL req) = "/parent"%string ->
      PathVars url_EscapedPath m req = Some ∅).
Proof.
  intros Hp Hpath Hreg Hm Hs Hh Hop.
  destruct (newMuxRoute url_Parse url_Query httpMethod urlPattern) as [r|e] eqn:Hr;
    [|unfold Handle in Hreg; rewrite Hr in Hreg; discriminate].
  rewrite (Handle_empty url_Parse url_Query nf _ _ h r Hr) in Hreg.
  injection Hreg as <-.
  destruct (newMuxRoute_parent_wildcard _ _ _ _ Hp Hpath Hr)
    as (Hrm & Hrs & Hrh & Hrp & Hrv).
  assert (Hcmp := compareRequestRoute_method_scheme_host req r
                    ltac:(congruence) ltac:(congruence) ltac:(congruence)).
  cbv zeta in Hcmp. rewrite Hrp in Hcmp.
  unfold PathVars. cbn [entries length]. rewrite searchRange_one.
  cbn [lookup_total list_lookup_total route]. rewrite Hcmp. clear Hcmp.
  split; intros Hreqpath Hesc.
  - destruct (url_RequestURI_shape _ _ Hop Hesc ltac:(discriminate)) as (q & -> & _).
    destruct (splitPathSegs_parent_x_y q) as (seg & rest & ->).
    assert (Hloop : forRange
              (requestSegment ("parent"%string :: "x"%string :: seg :: rest) r)
              (seq 0 (Nat.min (length ("parent"%string :: "x"%string :: seg :: rest))
                              (length ["parent"; "{*}"]%string))) = Some 0).
    { unfold requestSegment. rewrite Hrp. reflexivity. }
    rewrite Hloop. simpl.
    rewrite Hreqpath, Hrv. vm_compute. reflexivity.
  - destruct (url_RequestURI_shape _ _ Hop Hesc ltac:(discriminate)) as (q & -> & Hq).
    destruct (splitPathSegs_parent q Hq) as [->|(piece & rest & ->)].
    + assert (Hloop : forRange (requestSegment ["parent"%string] r)
                (seq 0 (Nat.min (length ["parent"%string])
                                (length ["parent"; "{*}"]%string))) = None).
      { unfold requestSegment. rewrite Hrp. reflexivity. }
      rewrite Hloop. reflexivity.
    + assert (Hloop : forRange (requestSegment (("parent?" +:+ piece) :: rest) r)
                (seq 0 (Nat.min (length (("parent?" +:+ piece) :: rest))
                                (length ["parent"; "{*}"]%string))) = Some 1).
      { unfold requestSegment. rewrite Hrp. reflexivity. }
      rewrite Hloop. reflexivity.
Qed.

End Wildcard.

(** [GET http://h/parent/x/y] and [GET http://h/parent] against the table that
    holds [GET http://h/parent/{*}]. *)
Lemma PathVars_wildcard_witness :
  Examples.pathVars Examples.parentTable (Examples.get "/parent/x/y" "")
  = Some {["*"%string := "x/y"%string]}
  /\ Examples.pathVars Examples.parentTable (Examples.get "/parent" "") = Some ∅.
Proof.
  split.
  - refine (proj1 (PathVars_wildcard Plain.Parse Plain.Query Plain.EscapedPath
             "GET" "http://h/parent/{*}"
             (url.mkURL "http" "" "h" "/parent/{*}" "/parent/{*}" false "")
             (http.handlerRef 0) None Examples.parentTable
             (Examples.get "/parent/x/y" "") _ _ _ _ _ _ _) _ _);
      vm_compute; reflexivity.
  - refine (proj2 (PathVars_wildcard Plain.Parse Plain.Query Plain.EscapedPath
             "GET" "http://h/parent/{*}"
             (url.mkURL "http" "" "h" "/parent/{*}" "/parent/{*}" false "")
             (http.handlerRef 0) None Examples.parentTable
             (Examples.get "/parent" "") _ _ _ _ _ _ _) _ _);
      vm_compute; reflexivity.
Defined.

(** C5 (as specified) fails in its second half: for the request
    [/parent] the mapping that [PathVars] returns has no entry for [*]. *)
Lemma PathVars_wildcard_counterexample :
  fst (Examples.register Examples.emptyMux "GET" "http://h/parent/{*}" 0) = None
  /\ exists vars,
       Examples.pathVars Examples.parentTable (Examples.get "/parent" "") = Some vars
       /\ vars !! "*"%string <> Some ""%string.
Proof.
  split; [vm_compute; reflexivity|].
  exists ∅. split; [vm_compute; reflexivity|].
  rewrite lookup_empty. discriminate.
Qed.

(** ** Acceptance of a request by a query route *)

Section Acceptance.

Lemma ltb_empty (s : string) : String.ltb s "" = false.
Proof. now destruct s. Qed.

Lemma skipped_spec (r q : queryEntry) :
  skipped r q = true <->
  String.ltb (Name q) (Name r) = true
  \/ (Name r = Name q /\ Value r <> ""%string
      /\ String.ltb (Value q) (Value r) = true).
Proof.
  unfold skipped, GoStrings.gt.
  rewrite orb_true_iff, !andb_true_iff, negb_true_iff, String.eqb_eq, String.eqb_neq.
  tauto.
Qed.

Lemma matched_spec (r q : queryEntry) : matched r q = true <-> matchedBy r q.
Proof.
  unfold matched, matchedBy.
  rewrite andb_true_iff, orb_true_iff, !String.eqb_eq. tauto.
Qed.

Lemma notAfter_spec (q q' : queryEntry) :
  notAfter q q' <->
  String.ltb (Name q') (Name q) = false
  /\ (Name q' = Name q -> String.ltb (Value q') (Value q) = false).
Proof.
  unfold notAfter. split.
  - intros Hnl. split.
    + destruct (String.ltb (Name q') (Name q)) eqn:E; [|reflexivity].
      assert (Less q' q = true) by (apply Less_spec; now left). congruence.
    + intros Hn. destruct (String.ltb (Value q') (Value q)) eqn:E; [|reflexivity].
      assert (Less q' q = true) by (apply Less_spec; now right). congruence.
  - intros [Hn Hv]. destruct (Less q' q) eqn:E; [|reflexivity].
    apply Less_spec in E as [E|[E1 E2]]; [congruence|].
    rewrite (Hv E1) in E2. discriminate.
Qed.

(** The loop, one turn at a time. *)
Lemma acceptLoop_nil_l (req : queryRoute) (used : bool) :
  acceptLoop [] req used = Some ([], used).
Proof. now destruct req. Qed.

Lemma acceptLoop_nil_r (route : queryRoute) (used : bool) :
  acceptLoop route [] used = Some (route, used).
Proof. now destruct route. Qed.

Lemma acceptLoop_cons (r q : queryEntry) (route req : queryRoute) (used : bool) :
  acceptLoop (r :: route) (q :: req) used
  = if skipped r q then acceptLoop (r :: route) req used
    else if matched r q then acceptLoop (r :: route) req true
    else if used then acceptLoop route (q :: req) false
    else None.
Proof. reflexivity. Qed.

(** A pair that the loop skips passes neither the current test nor a later
    one. *)
Lemma skipped_not_matchedBy (r q : queryEntry) :
  skipped r q = true -> ~ matchedBy r q.
Proof.
  rewrite skipped_spec. intros [Hn|(Hn & Hv & Hlt)] [Hm [Hm'|Hm']].
  - rewrite Hm, ltb_irrefl in Hn. discriminate.
  - rewrite Hm, ltb_irrefl in Hn. discriminate.
  - contradiction.
  - rewrite Hm', ltb_irrefl in Hlt. discriminate.
Qed.

Lemma skipped_not_matchedBy_later (r r' q : queryEntry) :
  skipped r q = true -> Less r r' = true -> ~ matchedBy r' q.
Proof.
  rewrite skipped_spec, Less_spec.
  intros Hskip Hless [Hm Hm'].
  destruct Hskip as [Hn|(Hn & Hv & Hlt)], Hless as [Hl|[Hl Hl']].
  - rewrite <- Hm in Hn. rewrite (ltb_asym _ _ Hl) in Hn. discriminate.
  - rewrite <- Hm, Hl, ltb_irrefl in Hn. discriminate.
  - rewrite Hm, <- Hn, ltb_irrefl in Hl. discriminate.
  - destruct Hm' as [Hm'|Hm'].
    + rewrite Hm', ltb_empty in Hl'. discriminate.
    + rewrite Hm' in Hl'. rewrite (ltb_asym _ _ Hl') in Hlt. discriminate.
Qed.

(** After a pair has passed the current test, no later pair is skipped. *)
Lemma matchedBy_not_skipped_later (r q q' : queryEntry) :
  matchedBy r q -> notAfter q q' -> skipped r q' = false.
Proof.
  intros [Hm Hm'] [Hn Hv]%notAfter_spec.
  destruct (skipped r q') eqn:Hs; [|reflexivity].
  apply skipped_spec in Hs as [Hs|(Hs & Hne & Hlt)].
  - rewrite Hm in Hs. congruence.
  - destruct Hm' as [Hm'|Hm']; [contradiction|].
    rewrite Hm' in Hlt. rewrite Hv in Hlt by congruence. discriminate.
Qed.

(** A pair that passes the current test passes no later test of the route. *)
Lemma matchedBy_not_later (r r' q : queryEntry) :
  matchedBy r q -> Less r r' = true ->
  (Name r = Name r' -> Value r = ""%string -> r = r') ->
  ~ matchedBy r' q.
Proof.
  intros [Hm Hm'] Hless Hexcl [Hk Hk'].
  assert (Hnames : Name r = Name r') by congruence.
  apply Less_spec in Hless as [Hl|[_ Hl]].
  { rewrite Hnames, ltb_irrefl in Hl. discriminate. }
  destruct Hm' as [Hm'|Hm'].
  { rewrite <- (Hexcl Hnames Hm'), ltb_irrefl in Hl. discriminate. }
  destruct Hk' as [Hk'|Hk'].
  - rewrite Hk', ltb_empty in Hl. discriminate.
  - rewrite Hk', <- Hm', ltb_irrefl in Hl. discriminate.
Qed.

(** A test that the current pair neither skips nor passes is passed by no
    later pair. *)
Lemma unmatched_not_later (r q q' : queryEntry) :
  skipped r q = false -> ~ matchedBy r q -> notAfter q q' -> ~ matchedBy r q'.
Proof.
  intros Hskip Hnm [Hn Hv]%notAfter_spec [Hk Hk'].
  assert (Hnames : Name r = Name q).
  { apply ltb_connex.
    - rewrite Hk. exact Hn.
    - destruct (String.ltb (Name q) (Name r)) eqn:E; [|reflexivity].
      assert (skipped r q = true) by (apply skipped_spec; now left). congruence. }
  assert (Hve : Value r <> ""%string) by (intros E; apply Hnm; split; tauto).
  assert (Hvq : Value r <> Value q) by (intros E; apply Hnm; split; tauto).
  destruct Hk' as [Hk'|Hk']; [contradiction|].
  assert (Hlt : String.ltb (Value r) (Value q) = true).
  { destruct (String.ltb (Value r) (Value q)) eqn:E; [reflexivity|].
    destruct (String.ltb (Value q) (Value r)) eqn:E'.
    - assert (skipped r q = true) by (apply skipped_spec; right; tauto). congruence.
    - exfalso. apply Hvq. now apply ltb_connex. }
  rewrite Hk', Hv in Hlt by congruence. discriminate.
Qed.

End Acceptance.

Section AcceptanceLoop.

Lemma satisfiedBy_nil (r : queryEntry) : ~ satisfiedBy [] r.
Proof. intros (q & Hq & _). now apply elem_of_nil in Hq. Qed.

Lemma satisfiedBy_cons (q : queryEntry) (req : queryRoute) (r : queryEntry) :
  satisfiedBy (q :: req) r <-> matchedBy r q \/ satisfiedBy req r.
Proof.
  unfold satisfiedBy. split.
  - intros (q' & [->|Hq']%elem_of_cons & Hm); [now left|right; eauto].
  - intros [Hm|(q' & Hq' & Hm)]; [exists q|exists q']; split;
      try assumption; [now left|now right].
Qed.

Lemma strictlySorted_inv (r : queryEntry) (route : queryRoute) :
  strictlySorted (r :: route) ->
  strictlySorted route /\ forall r', r' ∈ route -> Less r r' = true.
Proof.
  intros H. apply StronglySorted_inv in H as [Hs Hall]. split; [exact Hs|].
  intros r' Hr'. rewrite Forall_forall in Hall. now apply Hall.
Qed.

Lemma exclusiveTests_inv (r : queryEntry) (route : queryRoute) :
  exclusiveTests (r :: route) -> exclusiveTests route.
Proof. intros H a b Ha Hb. apply H; now right. Qed.

Lemma sorted_request_inv (q : queryEntry) (req : queryRoute) :
  StronglySorted notAfter (q :: req) ->
  StronglySorted notAfter req /\ forall q', q' ∈ req -> notAfter q q'.
Proof.
  intros H. apply StronglySorted_inv in H as [Hs Hall]. split; [exact Hs|].
  intros q' Hq'. rewrite Forall_forall in Hall. now apply Hall.
Qed.

(** The loop while the test [r] is the current one; [Hadvance] says what the
    loop does once it has moved on to the tests after [r]. *)
Lemma acceptLoop_current (r : queryEntry) (route : queryRoute) :
  (forall q req, StronglySorted notAfter (q :: req) ->
     (allConsumed (acceptLoop route (q :: req) false) = true
      <-> forall r', r' ∈ route -> satisfiedBy (q :: req) r')) ->
  strictlySorted (r :: route) ->
  exclusiveTests (r :: route) ->
  forall (req : queryRoute) (used : bool),
    StronglySorted notAfter req ->
    (used = true -> forall q, q ∈ req -> skipped r q = false) ->
    (allConsumed (acceptLoop (r :: route) req used) = true
     <-> (used = true \/ satisfiedBy req r)
         /\ forall r', r' ∈ route -> satisfiedBy req r').
Proof.
  intros Hadvance Hsorted Hexcl.
  destruct (strictlySorted_inv _ _ Hsorted) as [_ Hless].
  induction req as [|q req IH]; intros used Hreq Hused.
  - rewrite acceptLoop_nil_r. cbn [allConsumed]. destruct used.
    + destruct route as [|r1 route]; cbn [length Nat.eqb].
      * split; [|reflexivity]. intros _. split; [now left|].
        intros r' Hr'. now apply elem_of_nil in Hr'.
      * split; [discriminate|]. intros [_ H].
        exfalso. apply (satisfiedBy_nil r1), H. now left.
    + split; [discriminate|]. intros [[H|H] _]; [discriminate|].
      now apply satisfiedBy_nil in H.
  - destruct (sorted_request_inv _ _ Hreq) as [Hreq' Hafter].
    rewrite acceptLoop_cons.
    destruct (skipped r q) eqn:Hskip.
    + rewrite IH; [|assumption|intros Hu q' Hq'; apply Hused; [exact Hu|now right]].
      rewrite satisfiedBy_cons.
      pose proof (skipped_not_matchedBy _ _ Hskip) as Hr.
      split; intros [H1 H2]; (split; [tauto|]); intros r' Hr'.
      * apply satisfiedBy_cons. right. now apply H2.
      * pose proof (skipped_not_matchedBy_later r r' q Hskip (Hless _ Hr')) as Hn.
        specialize (H2 r' Hr'). apply satisfiedBy_cons in H2. tauto.
    + destruct (matched r q) eqn:Hmatch.
      * apply matched_spec in Hmatch.
        rewrite IH; [|assumption|].
        2: { intros _ q' Hq'. apply (matchedBy_not_skipped_later r q q' Hmatch).
             now apply Hafter. }
        rewrite satisfiedBy_cons.
        split; intros [_ H2]; (split; [tauto|]); intros r' Hr'.
        -- apply satisfiedBy_cons. right. now apply H2.
        -- assert (Hn : ~ matchedBy r' q).
           { apply (matchedBy_not_later r r' q Hmatch (Hless _ Hr')).
             intros Hnames Hval. apply Hexcl; [now left|now right|assumption..]. }
           specialize (H2 r' Hr'). apply satisfiedBy_cons in H2. tauto.
      * assert (Hnm : ~ matchedBy r q).
        { intros H. apply matched_spec in H. congruence. }
        destruct used.
        -- rewrite (Hadvance q req Hreq). split; [intros H; split; [now left|exact H]|tauto].
        -- cbn [allConsumed]. split; [discriminate|].
           intros [[H|H] _]; [discriminate|]. exfalso.
           apply satisfiedBy_cons in H as [H|(q' & Hq' & H)]; [contradiction|].
           now apply (unmatched_not_later r q q' Hskip Hnm (Hafter _ Hq')).
Qed.

(** The merge loop consumes every entry of the route exactly when every
    entry is passed by some pair of the request. *)
Lemma acceptLoop_allConsumed (route req : queryRoute) :
  strictlySorted route ->
  exclusiveTests route ->
  StronglySorted notAfter req ->
  (allConsumed (acceptLoop route req false) = true
   <-> forall r, r ∈ route -> satisfiedBy req r).
Proof.
  intros Hsorted Hexcl. revert req.
  induction route as [|r route IH]; intros req Hreq.
  - rewrite acceptLoop_nil_l. split; [|reflexivity].
    intros _ r Hr. now apply elem_of_nil in Hr.
  - destruct (strictlySorted_inv _ _ Hsorted) as [Hsorted' _].
    rewrite (acceptLoop_current r route); try assumption.
    + split.
      * intros [[H|H] H'] r' Hr'; [discriminate|].
        apply elem_of_cons in Hr' as [->|Hr']; auto.
      * intros H. split; [right; apply H; now left|].
        intros r' Hr'. apply H. now right.
    + intros q req' Hreq'. apply IH; [assumption| |assumption].
      now apply exclusiveTests_inv in Hexcl.
    + discriminate.
Qed.

End AcceptanceLoop.

(** ** Routes built by [newQueryRoute], and what they accept *)

Section AcceptanceOfRoutes.

Lemma elem_of_requestEntries (e : queryEntry) (values : url_Values) :
  e ∈ requestEntries values <->
  exists paramValues, (Name e, paramValues) ∈ values /\ Value e ∈ paramValues.
Proof.
  unfold requestEntries. rewrite list_elem_of_In, in_flat_map. split.
  - intros ([n vs] & Hin & He). apply in_map_iff in He as (v & <- & Hv).
    exists vs. split; now apply list_elem_of_In.
  - intros (vs & Hin & Hv). exists (Name e, vs). split; [now apply list_elem_of_In|].
    apply in_map_iff. exists (Value e). split; [now destruct e|].
    now apply list_elem_of_In.
Qed.

Lemma satisfiedBy_sort_Sort (entries : queryRoute) (r : queryEntry) :
  satisfiedBy (sort_Sort entries) r <-> satisfiedBy entries r.
Proof.
  unfold satisfiedBy, sort_Sort.
  split; intros (q & Hq & Hm); exists q; (split; [|exact Hm]).
  - now rewrite merge_sort_Permutation in Hq.
  - now rewrite merge_sort_Permutation.
Qed.

(** A key of a map has one value. *)
Lemma values_of_key {V : Type} (values : list (string * V)) (k : string) (x y : V) :
  NoDup values.*1 -> (k, x) ∈ values -> (k, y) ∈ values -> x = y.
Proof.
  induction values as [|[k' z] values IH]; intros Hnd Hx Hy.
  - now apply elem_of_nil in Hx.
  - cbn [fmap list_fmap fst] in Hnd. apply NoDup_cons in Hnd as [Hk' Hnd].
    apply elem_of_cons in Hx as [Hx|Hx], Hy as [Hy|Hy].
    + congruence.
    + injection Hx as -> ->. exfalso. apply Hk'.
      apply list_elem_of_fmap. now exists (k', y).
    + injection Hy as -> ->. exfalso. apply Hk'.
      apply list_elem_of_fmap. now exists (k', x).
    + now apply IH.
Qed.

(** Values that do not mix the tests and hold an empty value hold only it. *)
Lemma presence_alone (paramValues : list string) (v : string) :
  ~ mixedTests paramValues -> ""%string ∈ paramValues -> v ∈ paramValues ->
  v = ""%string.
Proof.
  intros Hmix [i Hi]%list_elem_of_lookup [j Hj]%list_elem_of_lookup.
  destruct (lt_eq_lt_dec i j) as [[Hlt| ->]|Hlt].
  - exfalso. apply Hmix. exists i, j, ""%string, v. repeat split; [lia|assumption..|now left].
  - congruence.
  - destruct (String.eqb_spec v "") as [|Hne]; [assumption|].
    exfalso. apply Hmix. exists j, i, v, ""%string. repeat split; [lia|assumption..|now right].
Qed.

Lemma newQueryRoute_Ok (values : url_Values) (route : queryRoute) :
  newQueryRoute values = Ok route ->
  route = sort_Sort (requestEntries values)
  /\ forall paramName paramValues,
       (paramName, paramValues) ∈ values -> ~ mixedTests paramValues.
Proof.
  intros Hroute. split.
  - unfold newQueryRoute in Hroute.
    destruct (scanParams values []) as [es|] eqn:Hscan; [|discriminate].
    apply scanParams_Ok in Hscan. injection Hroute as <-. now subst es.
  - intros n vs Hin Hmix. unfold newQueryRoute in Hroute.
    assert (Herr : scanParams values [] = Err ErrURLPatternInvalidQueryRoute)
      by (apply scanParams_Err; eauto).
    rewrite Herr in Hroute. discriminate.
Qed.

Lemma sorted_NoDup_strictlySorted (route : queryRoute) :
  StronglySorted notAfter route -> NoDup route -> strictlySorted route.
Proof.
  induction 1 as [|a l Hl IH Hall]; intros Hnd; [constructor|].
  apply NoDup_cons in Hnd as [Ha Hnd].
  constructor; [now apply IH|].
  rewrite Forall_forall in Hall |- *. intros b Hb.
  destruct (Less a b) eqn:Hab; [reflexivity|].
  exfalso. apply Ha. rewrite (Less_incomparable a b Hab (Hall b Hb)). exact Hb.
Qed.

(** A route built from a map that repeats no test is sorted strictly and
    keeps presence tests apart from value tests. *)
Lemma newQueryRoute_wellformed (values : url_Values) (route : queryRoute) :
  NoDup values.*1 ->
  newQueryRoute values = Ok route ->
  NoDup route ->
  strictlySorted route /\ exclusiveTests route.
Proof.
  intros Hkeys Hroute Hnd.
  destruct (newQueryRoute_Ok _ _ Hroute) as [Heq Hmix]. split.
  - apply sorted_NoDup_strictlySorted; [|exact Hnd].
    rewrite Heq. apply StronglySorted_merge_sort; apply _.
  - intros a b Ha Hb Hnames Hval.
    assert (Hin : forall e, e ∈ route -> e ∈ requestEntries values).
    { intros e He. rewrite Heq in He. unfold sort_Sort in He.
      now rewrite merge_sort_Permutation in He. }
    apply Hin, elem_of_requestEntries in Ha as (vs & Hvs & Hva).
    apply Hin, elem_of_requestEntries in Hb as (vs' & Hvs' & Hvb).
    rewrite <- Hnames in Hvs'.
    pose proof (values_of_key _ _ _ _ Hkeys Hvs Hvs') as <-.
    rewrite Hval in Hva.
    pose proof (presence_alone vs (Value b) (Hmix _ _ Hvs) Hva Hvb) as Hb.
    destruct a, b; simpl in *; congruence.
Qed.

Lemma Acceptable_allConsumed (route : queryRoute) (requestQueryValues : url_Values) :
  Acceptable route requestQueryValues
  = allConsumed (acceptLoop route (sort_Sort (requestEntries requestQueryValues)) false).
Proof. reflexivity. Qed.

End AcceptanceOfRoutes.

(** C7 (as the code has it). The route of [?tag=a&tag=b] rejects a request
    with [?tag=b&other=x] and one with [?tag=c], and accepts one with
    [?tag=a&tag=b&other=x].  In general a route that repeats no test accepts
    a request exactly when every one of its entries is passed by a request
    pair of the same name, of any value for a presence test and of the same
    value for a value test: value tests that share a name must all be
    passed, and request parameters that the route does not name play no
    part. *)
Theorem Acceptable_requires_every_test :
  (newQueryRoute [("tag", ["a"; "b"])]%string = Ok tagRoute
   /\ Acceptable tagRoute [("tag", ["b"]); ("other", ["x"])]%string = false
   /\ Acceptable tagRoute [("tag", ["c"])]%string = false
   /\ Acceptable tagRoute [("tag", ["a"; "b"]); ("other", ["x"])]%string = true)
  /\ forall (routeValues : url_Values) (route : queryRoute)
            (requestQueryValues : url_Values),
       NoDup routeValues.*1 ->
       newQueryRoute routeValues = Ok route ->
       NoDup route ->
       (Acceptable route requestQueryValues = true
        <-> forall routeParam, routeParam ∈ route ->
              satisfiedBy (requestEntries requestQueryValues) routeParam).
Proof.
  split; [repeat split; vm_compute; reflexivity|].
  intros routeValues route requestQueryValues Hkeys Hroute Hnd.
  destruct (newQueryRoute_wellformed _ _ Hkeys Hroute Hnd) as [Hsorted Hexcl].
  rewrite Acceptable_allConsumed, acceptLoop_allConsumed;
    [|assumption..|apply StronglySorted_merge_sort; apply _].
  split; intros H r Hr; apply satisfiedBy_sort_Sort || apply satisfiedBy_sort_Sort in H;
    auto.
Qed.

(** The rule [?tag=a&tag=b] against the request [?tag=b&other=x]. *)
Lemma Acceptable_requires_every_test_witness :
  Acceptable tagRoute [("tag", ["b"]); ("other", ["x"])]%string = true
  <-> forall routeParam, routeParam ∈ tagRoute ->
        satisfiedBy (requestEntries [("tag", ["b"]); ("other", ["x"])]%string) routeParam.
Proof.
  apply (proj2 Acceptable_requires_every_test [("tag", ["a"; "b"])]%string tagRoute).
  - apply NoDup_singleton.
  - vm_compute. reflexivity.
  - apply NoDup_cons. split; [|apply NoDup_singleton].
    intros H. apply list_elem_of_singleton in H. discriminate.
Defined.

(** C7 (as specified) fails: the route of [?tag=a&tag=b] does not
    accept the request [?tag=b&other=x]. *)
Lemma Acceptable_or_semantics_counterexample :
  newQueryRoute [("tag", ["a"; "b"])]%string = Ok tagRoute
  /\ Acceptable tagRoute [("tag", ["b"]); ("other", ["x"])]%string <> true.
Proof. split; [vm_compute; reflexivity|vm_compute; discriminate]. Qed.

(** * Further properties of the code *)

(** ** What the binary search guarantees *)

Section SearchGuarantees.

(** The invariant of [sort.Search]: [f] is false just before the interval
    and true just after it. *)
Lemma searchLoop_invariant (n : nat) (f : nat -> bool) (fuel i j : nat) :
  (i <= j <= n)%nat -> (j - i <= fuel)%nat ->
  (0 < i -> f (i - 1)%nat = false)%nat ->
  (j < n -> f j = true)%nat ->
  (0 < searchLoop fuel f i j -> f (searchLoop fuel f i j - 1)%nat = false)%nat
  /\ (searchLoop fuel f i j < n -> f (searchLoop fuel f i j) = true)%nat.
Proof.
  revert i j. induction fuel as [|fuel IH]; intros i j Hij Hfuel Hlow Hhigh.
  - cbn [searchLoop]. assert (i = j) as -> by lia. tauto.
  - cbn [searchLoop]. destruct (Nat.ltb_spec i j) as [Hlt|Hge].
    + pose proof (midpoint_bounds i j Hlt) as Hh.
      destruct (f ((i + j) / 2)%nat) eqn:Hf; cbn [negb].
      * apply IH; [lia|lia|assumption|]. intros _. exact Hf.
      * apply IH; [lia|lia| |assumption]. intros _.
        replace ((i + j) / 2 + 1 - 1)%nat with ((i + j) / 2)%nat by lia. exact Hf.
    + assert (i = j) as -> by lia. tauto.
Qed.

(** The search for a weaker predicate ends no later, and when it ends
    earlier some index in between tells the two predicates apart. *)
Lemma searchLoop_weaker (f g : nat -> bool) (fuel i j : nat) :
  (forall h, g h = true -> f h = true) ->
  (i <= j)%nat ->
  (searchLoop fuel f i j <= searchLoop fuel g i j)%nat
  /\ ((searchLoop fuel f i j < searchLoop fuel g i j)%nat ->
      exists h, (searchLoop fuel f i j <= h < searchLoop fuel g i j)%nat
                /\ f h = true /\ g h = false).
Proof.
  intros Hgf. revert i j. induction fuel as [|fuel IH]; intros i j Hij.
  - cbn [searchLoop]. split; [lia|]. lia.
  - cbn [searchLoop]. destruct (Nat.ltb_spec i j) as [Hlt|Hge]; [|split; lia].
    pose proof (midpoint_bounds i j Hlt) as Hh.
    destruct (g ((i + j) / 2)%nat) eqn:Hg.
    + rewrite (Hgf _ Hg). cbn [negb]. apply IH. lia.
    + destruct (f ((i + j) / 2)%nat) eqn:Hf; cbn [negb].
      * pose proof (searchLoop_bounds fuel f i ((i + j) / 2) ltac:(lia)) as [_ Hf'].
        pose proof (searchLoop_bounds fuel g ((i + j) / 2 + 1) j ltac:(lia)) as [Hg' _].
        split; [lia|]. intros _. exists ((i + j) / 2)%nat. repeat split; [lia|lia|assumption..].
      * apply IH. lia.
Qed.

Lemma searchRange_found (n : nat) (fn : nat -> Z) (lo hi : nat) (found : bool) :
  searchRange n fn = (lo, hi, found) ->
  (lo <= hi <= n)%nat
  /\ (found = true <-> (lo < hi)%nat)
  /\ (found = true -> exists h, (lo <= h < hi)%nat /\ fn h = 0)
  /\ ((lo < n)%nat -> fn lo <= 0)
  /\ ((0 < lo)%nat -> 0 < fn (lo - 1)%nat).
Proof.
  intros Hsearch.
  destruct (searchRange_bounds n fn lo hi found Hsearch) as (Hlo & Hhi & Hfound).
  unfold searchRange in Hsearch. injection Hsearch as Hlo' Hhi' _.
  unfold sort_Search in *.
  destruct (searchLoop_weaker (fun i => fn i <=? 0) (fun i => fn i <? 0) n 0 n)
    as [Hle Hbetween]; [intros h; rewrite Z.ltb_lt, Z.leb_le; lia|lia|].
  rewrite Hlo', Hhi' in Hle, Hbetween.
  destruct (searchLoop_invariant n (fun i => fn i <=? 0) n 0 n) as [Hbefore Hat];
    [lia|lia|lia|lia|].
  rewrite Hlo' in Hbefore, Hat.
  split; [lia|]. split; [exact Hfound|]. split; [|split].
  - intros Hf. apply Hfound in Hf. destruct (Hbetween Hf) as (h & Hh & Hfh & Hgh).
    exists h. split; [exact Hh|]. apply Z.leb_le in Hfh. apply Z.ltb_ge in Hgh. lia.
  - intros H. apply Z.leb_le. now apply Hat.
  - intros H. specialize (Hbefore H). apply Z.leb_gt in Hbefore. exact Hbefore.
Qed.

End SearchGuarantees.

(** X1. Whatever the order of the table, [searchRange] returns
    [lo <= hi <= n], reports [found] exactly when [lo < hi], and then some
    index of the range really compares equal; the entry at [lo] never
    compares greater and the entry before [lo] always does. *)
Theorem searchRange_sound (n : nat) (fn : nat -> Z) :
  let '(lo, hi, found) := searchRange n fn in
  (lo <= hi <= n)%nat
  /\ (found = true <-> (lo < hi)%nat)
  /\ (found = true -> exists h, (lo <= h < hi)%nat /\ fn h = 0)
  /\ ((lo < n)%nat -> fn lo <= 0)
  /\ ((0 < lo)%nat -> 0 < fn (lo - 1)%nat).
Proof.
  destruct (searchRange n fn) as [[lo hi] found] eqn:Hsearch.
  exact (searchRange_found n fn lo hi found Hsearch).
Qed.

(** On a sorted table the range is the set of the entries that compare
    equal. *)
Lemma searchRange_sorted_range (n : nat) (fn : nat -> Z) (lo hi : nat) (found : bool) :
  sortedFor n fn ->
  searchRange n fn = (lo, hi, found) ->
  (forall h, (h < n)%nat -> ((lo <= h < hi)%nat <-> fn h = 0))
  /\ (found = true <-> exists h, (h < n)%nat /\ fn h = 0).
Proof.
  intros Hsorted Hsearch.
  destruct (searchRange_found n fn lo hi found Hsearch)
    as (Hbounds & Hfound & Hzero & Hat & Hbefore).
  unfold searchRange in Hsearch. injection Hsearch as Hlo Hhi _.
  destruct (searchLoop_invariant n (fun i => fn i <? 0) n 0 n) as [Hbefore' Hat'];
    [lia|lia|lia|lia|].
  unfold sort_Search in Hhi. rewrite Hhi in Hbefore', Hat'.
  assert (Hrange : forall h, (h < n)%nat -> ((lo <= h < hi)%nat <-> fn h = 0)).
  { intros h Hh. split.
    - intros [Hl Hu].
      assert (Hle : fn h <= 0).
      { destruct (Hsorted lo h ltac:(lia)) as [H _]. apply H, Hat. lia. }
      assert (Hnn : ~ fn h < 0).
      { intros Hneg. destruct (Hsorted h (hi - 1)%nat ltac:(lia)) as [_ H].
        specialize (H Hneg). specialize (Hbefore' ltac:(lia)).
        apply Z.ltb_ge in Hbefore'. lia. }
      lia.
    - intros Hz. split.
      + destruct (Nat.le_gt_cases lo h) as [|Hlt]; [assumption|exfalso].
        destruct (Hsorted h (lo - 1)%nat ltac:(lia)) as [H _].
        specialize (Hbefore ltac:(lia)). lia.
      + destruct (Nat.le_gt_cases hi h) as [Hge|]; [exfalso|assumption].
        specialize (Hat' ltac:(lia)). apply Z.ltb_lt in Hat'.
        destruct (Hsorted hi h ltac:(lia)) as [_ H]. specialize (H Hat'). lia. }
  split; [exact Hrange|].
  rewrite Hfound. split.
  - intros Hlt. exists lo. split; [lia|]. apply Hrange; lia.
  - intros (h & Hh & Hz). apply Hrange in Hz; lia.
Qed.

(** X2. On a table that is sorted for the comparison, [searchRange] returns
    exactly the range of the entries that compare equal, and reports [found]
    exactly when there is one. *)
Theorem searchRange_sorted (n : nat) (fn : nat -> Z) :
  sortedFor n fn ->
  let '(lo, hi, found) := searchRange n fn in
  (forall h, (h < n)%nat -> ((lo <= h < hi)%nat <-> fn h = 0))
  /\ (found = true <-> exists h, (h < n)%nat /\ fn h = 0).
Proof.
  intros Hsorted.
  destruct (searchRange n fn) as [[lo hi] found] eqn:Hsearch.
  exact (searchRange_sorted_range n fn lo hi found Hsorted Hsearch).
Qed.

(** A table of three entries that compare as 1, 0, -1. *)
Lemma searchRange_sorted_witness :
  let '(lo, hi, found) := searchRange 3 (fun i => 1 - Z.of_nat i) in
  (forall h, (h < 3)%nat -> ((lo <= h < hi)%nat <-> 1 - Z.of_nat h = 0))
  /\ (found = true <-> exists h, (h < 3)%nat /\ 1 - Z.of_nat h = 0).
Proof.
  apply (searchRange_sorted 3 (fun i => 1 - Z.of_nat i)).
  intros a b Hab. lia.
Defined.

(** A table of three entries that compare as 1, 0, -1: the middle one is
    found. *)
Lemma searchRange_sound_witness :
  exists h, (1 <= h < 2)%nat /\ 1 - Z.of_nat h = 0.
Proof.
  pose proof (searchRange_sound 3 (fun i => 1 - Z.of_nat i)) as H.
  change (searchRange 3 (fun i => 1 - Z.of_nat i)) with (1%nat, 2%nat, true) in H.
  cbv beta iota in H. destruct H as (_ & _ & Hzero & _).
  exact (Hzero eq_refl).
Defined.

(** ** What [Handle] and [RemoveHandler] do to the table *)

Section TableFacts.

Variable url_Parse : string -> option url.URL.
Variable url_Query : url.URL -> url_Values.

Lemma searchRange_hi (n : nat) (fn : nat -> Z) (lo hi : nat) (found : bool) :
  searchRange n fn = (lo, hi, found) ->
  ((hi < n)%nat -> fn hi < 0) /\ ((0 < hi)%nat -> 0 <= fn (hi - 1)%nat).
Proof.
  unfold searchRange, sort_Search. intros [= _ Hhi _].
  destruct (searchLoop_invariant n (fun i => fn i <? 0) n 0 n) as [Hbefore Hat];
    [lia|lia|lia|lia|].
  rewrite Hhi in Hbefore, Hat. split.
  - intros H. apply Z.ltb_lt. now apply Hat.
  - intros H. apply Z.ltb_ge. now apply Hbefore.
Qed.

Lemma scanPathVars_Err_kind (lastSeg : Z) (i : nat) (pathSegments : list string)
    (vars : gmap string nat) (e : error) :
  scanPathVars lastSeg i pathSegments vars = Err e -> e = ErrURLPatternInvalidPathVar.
Proof.
  revert i vars. induction pathSegments as [|v rest IH]; intros i vars;
    cbn [scanPathVars]; [discriminate|].
  destruct (_ || _); [apply IH|].
  destruct (String.eqb _ ""); [congruence|].
  destruct (_ && _); [congruence|].
  destruct (vars !! _); [congruence|apply IH].
Qed.

(** The errors of [newMuxRoute]. *)
Lemma newMuxRoute_Err_kind (httpMethod urlPattern : string) (e : error) :
  newMuxRoute url_Parse url_Query httpMethod urlPattern = Err e ->
  e = ErrMethodMustBeValid \/ e = ErrURLPatternMustBeValid
  \/ e = ErrURLPatternInvalidPathVar \/ e = ErrURLPatternInvalidQueryRoute.
Proof.
  unfold newMuxRoute.
  destruct (containsString defaultAllowedHTTPMethods httpMethod);
    cbn [negb]; [|intros [= <-]; tauto].
  destruct (String.eqb urlPattern ""); [intros [= <-]; tauto|].
  destruct (url_Parse urlPattern) as [u|]; [|intros [= <-]; tauto].
  destruct (url.IsAbs u); cbn [negb]; [|intros [= <-]; tauto].
  destruct (containsString defaultAllowedSchemes (url.Scheme u));
    cbn [negb]; [|intros [= <-]; tauto].
  destruct (String.eqb (url.Host u) ""); [intros [= <-]; tauto|].
  destruct (GoStrings.HasPrefix (url.Host u) ":"); [intros [= <-]; tauto|].
  destruct (scanPathVars _ _ _ _) as [vs|e'] eqn:Hv; cbn [bind].
  - destruct (newQueryRoute (url_Query u)) as [q|e''] eqn:Hq; cbn [bind];
      [discriminate|].
    intros [= <-]. unfold newQueryRoute in Hq.
    destruct (scanParams (url_Query u) []) eqn:Hscan; [discriminate|].
    cbn [bind] in Hq. injection Hq as <-.
    apply scanParams_Err_kind in Hscan. tauto.
  - intros [= <-]. apply scanPathVars_Err_kind in Hv. tauto.
Qed.

Lemma Handle_cases (m : Mux) (httpMethod urlPattern : string)
    (handler : option http.Handler) :
  (exists e, newMuxRoute url_Parse url_Query httpMethod urlPattern = Err e
             /\ Handle url_Parse url_Query m httpMethod urlPattern handler = (Some e, m))
  \/ (exists r, newMuxRoute url_Parse url_Query httpMethod urlPattern = Ok r
        /\ ((handler = None
             /\ Handle url_Parse url_Query m httpMethod urlPattern handler
                = (Some ErrHandlerMustBeNotNil, m))
            \/ exists h i hi found,
                 handler = Some h
                 /\ searchRange (length (entries m))
                      (fun i => compareDynamicRoutes r (route (entries m !!! i)))
                    = (i, hi, found)
                 /\ Handle url_Parse url_Query m httpMethod urlPattern handler
                    = if found then (Some ErrRouteMustNotConflict, m)
                      else (None,
                            {| NotFoundHandler := NotFoundHandler m;
                               entries := take i (entries m)
                                          ++ {| route := r; handler := h |}
                                          :: drop i (entries m) |}))).
Proof.
  unfold Handle.
  destruct (newMuxRoute url_Parse url_Query httpMethod urlPattern) as [r|e];
    [right|left; eauto].
  exists r. split; [reflexivity|].
  destruct handler as [h|]; [right|left; split; reflexivity].
  destruct (searchRange _ _) as [[i hi] found] eqn:Hsearch.
  exists h, i, hi, found. repeat split.
Qed.

Lemma RemoveHandler_cases (m : Mux) (httpMethod urlPattern : string) :
  (exists e, newMuxRoute url_Parse url_Query httpMethod urlPattern = Err e
             /\ RemoveHandler url_Parse url_Query m httpMethod urlPattern = (Some e, m))
  \/ (exists r i hi found,
        newMuxRoute url_Parse url_Query httpMethod urlPattern = Ok r
        /\ searchRange (length (entries m))
             (fun i => compareStaticRoutes r (route (entries m !!! i)))
           = (i, hi, found)
        /\ RemoveHandler url_Parse url_Query m httpMethod urlPattern
           = if found
             then (None,
                   {| NotFoundHandler := NotFoundHandler m;
                      entries := take i (entries m) ++ drop (i + 1) (entries m) |})
             else (Some ErrRouteMustExist, m)).
Proof.
  unfold RemoveHandler.
  destruct (newMuxRoute url_Parse url_Query httpMethod urlPattern) as [r|e];
    [right|left; eauto].
  destruct (searchRange _ _) as [[i hi] found] eqn:Hsearch.
  exists r, i, hi, found. split; [reflexivity|]. split; [exact Hsearch|].
  now destruct found.
Qed.

(** X3. A [Handle] that succeeds puts the new entry at an index [i] of the
    table, keeps every old entry in its order around it, and has found the
    new route greater than the entry before [i] and smaller than the entry
    after it under the Dynamic comparator. *)
Theorem Handle_success_places_entry (m m' : Mux) (httpMethod urlPattern : string)
    (handler : option http.Handler) :
  Handle url_Parse url_Query m httpMethod urlPattern handler = (None, m') ->
  exists r h i,
    handler = Some h
    /\ newMuxRoute url_Parse url_Query httpMethod urlPattern = Ok r
    /\ (i <= length (entries m))%nat
    /\ NotFoundHandler m' = NotFoundHandler m
    /\ entries m' = take i (entries m) ++ {| route := r; handler := h |}
                    :: drop i (entries m)
    /\ entries m' !! i = Some {| route := r; handler := h |}
    /\ length (entries m') = S (length (entries m))
    /\ (forall e, (0 < i)%nat -> entries m !! (i - 1)%nat = Some e ->
          0 < compareDynamicRoutes r (route e))
    /\ (forall e, entries m !! i = Some e -> compareDynamicRoutes r (route e) < 0).
Proof.
  intros Hhandle.
  destruct (Handle_cases m httpMethod urlPattern handler)
    as [(e & _ & H)|(r & Hr & [[_ H]|(h & i & hi & found & -> & Hsearch & H)])];
    try congruence.
  rewrite Hhandle in H. destruct found; [discriminate|]. injection H as ->.
  destruct (searchRange_found _ _ _ _ _ Hsearch) as (Hb & Hfound & _ & _ & Hbefore).
  destruct (searchRange_hi _ _ _ _ _ Hsearch) as [Hat _].
  assert (i = hi) as <- by (destruct Hfound as [_ Hf]; destruct (decide (i < hi)%nat);
                            [now specialize (Hf ltac:(assumption))|lia]).
  exists r, h, i. cbn [entries NotFoundHandler].
  repeat split; try reflexivity; try lia.
  - exact Hr.
  - rewrite list_lookup_middle; [reflexivity|]. rewrite length_take_le; lia.
  - rewrite length_app, length_take_le by lia. cbn [length].
    rewrite length_drop. lia.
  - intros e Hi He. apply list_lookup_total_correct in He. rewrite <- He.
    now apply Hbefore.
  - intros e He. pose proof (lookup_lt_Some _ _ _ He) as Hlt.
    apply list_lookup_total_correct in He. rewrite <- He. now apply Hat.
Qed.

(** X4. A [RemoveHandler] that succeeds deletes exactly one entry, at an
    index inside the table, and keeps the others in their order; some entry
    of the table has the route asked for (the Static comparator is zero on
    it), and the deleted entry does not compare greater. *)
Theorem RemoveHandler_success_deletes_one (m m' : Mux) (httpMethod urlPattern : string) :
  RemoveHandler url_Parse url_Query m httpMethod urlPattern = (None, m') ->
  exists r i e,
    newMuxRoute url_Parse url_Query httpMethod urlPattern = Ok r
    /\ entries m !! i = Some e
    /\ NotFoundHandler m' = NotFoundHandler m
    /\ entries m' = delete i (entries m)
    /\ S (length (entries m')) = length (entries m)
    /\ compareStaticRoutes r (route e) <= 0
    /\ exists e', e' ∈ entries m /\ compareStaticRoutes r (route e') = 0.
Proof.
  intros Hremove.
  destruct (RemoveHandler_cases m httpMethod urlPattern)
    as [(e & _ & H)|(r & i & hi & found & Hr & Hsearch & H)]; [congruence|].
  rewrite Hremove in H. destruct found; [|discriminate]. injection H as ->.
  destruct (searchRange_found _ _ _ _ _ Hsearch) as (Hb & Hfound & Hzero & Hat & _).
  assert (Hlt : (i < hi)%nat) by now apply Hfound.
  destruct (Hzero eq_refl) as (h & Hh & Hz).
  exists r, i, (entries m !!! i). cbn [entries NotFoundHandler].
  repeat split.
  - exact Hr.
  - apply list_lookup_lookup_total_lt. lia.
  - rewrite delete_take_drop. now replace (i + 1)%nat with (S i) by lia.
  - rewrite length_app, length_take_le, length_drop by lia. lia.
  - apply Hat. lia.
  - exists (entries m !!! h). split; [|exact Hz].
    apply list_elem_of_lookup_total_2. lia.
Qed.

(** X5. [Handle] reports a conflict only when the table holds an entry whose
    route compares equal to the new one under the Dynamic comparator, and
    then leaves the table alone. *)
Theorem Handle_conflict_sound (m : Mux) (httpMethod urlPattern : string)
    (handler : option http.Handler) :
  fst (Handle url_Parse url_Query m httpMethod urlPattern handler)
  = Some ErrRouteMustNotConflict ->
  exists r e,
    newMuxRoute url_Parse url_Query httpMethod urlPattern = Ok r
    /\ e ∈ entries m
    /\ compareDynamicRoutes r (route e) = 0
    /\ snd (Handle url_Parse url_Query m httpMethod urlPattern handler) = m.
Proof.
  intros Hhandle.
  destruct (Handle_cases m httpMethod urlPattern handler)
    as [(e & He & H)|(r & Hr & [[_ H]|(h & i & hi & found & -> & Hsearch & H)])].
  - rewrite H in Hhandle. injection Hhandle as ->.
    apply newMuxRoute_Err_kind in He. intuition discriminate.
  - rewrite H in Hhandle. discriminate.
  - rewrite H in Hhandle |- *. destruct found; [|discriminate].
    destruct (searchRange_found _ _ _ _ _ Hsearch) as (Hb & _ & Hzero & _).
    destruct (Hzero eq_refl) as (k & Hk & Hz).
    exists r, (entries m !!! k). repeat split; [exact Hr| |exact Hz].
    apply list_elem_of_lookup_total_2. lia.
Qed.

(** X6. [Handle] returns nil or one of the six errors its documentation
    lists, [RemoveHandler] nil or one of its five. *)
Theorem documented_errors (m : Mux) (httpMethod urlPattern : string)
    (handler : option http.Handler) (e : error) :
  (fst (Handle url_Parse url_Query m httpMethod urlPattern handler) = Some e ->
   e ∈ [ErrHandlerMustBeNotNil; ErrMethodMustBeValid; ErrRouteMustNotConflict;
        ErrURLPatternInvalidQueryRoute; ErrURLPatternInvalidPathVar;
        ErrURLPatternMustBeValid])
  /\ (fst (RemoveHandler url_Parse url_Query m httpMethod urlPattern) = Some e ->
      e ∈ [ErrMethodMustBeValid; ErrRouteMustExist; ErrURLPatternInvalidQueryRoute;
           ErrURLPatternInvalidPathVar; ErrURLPatternMustBeValid]).
Proof.
  split; intros Herr.
  - destruct (Handle_cases m httpMethod urlPattern handler)
      as [(e' & He & H)|(r & Hr & [[_ H]|(h & i & hi & found & -> & Hsearch & H)])];
      rewrite H in Herr.
    + injection Herr as ->. apply newMuxRoute_Err_kind in He.
      destruct He as [-> | [-> | [-> | ->]]]; set_solver.
    + injection Herr as <-. set_solver.
    + destruct found; [|discriminate]. injection Herr as <-. set_solver.
  - destruct (RemoveHandler_cases m httpMethod urlPattern)
      as [(e' & He & H)|(r & i & hi & found & Hr & Hsearch & H)];
      rewrite H in Herr.
    + injection Herr as ->. apply newMuxRoute_Err_kind in He.
      destruct He as [-> | [-> | [-> | ->]]]; set_solver.
    + destruct found; [discriminate|]. injection Herr as <-. set_solver.
Qed.

End TableFacts.

(** Registering [/{a}/x] next to [/{b}/c]. *)
Lemma Handle_success_places_entry_witness :
  exists r h i,
    Some (http.handlerRef 1) = Some h
    /\ newMuxRoute Plain.Parse Plain.Query "GET" "http://h/{a}/x" = Ok r
    /\ (i <= length (entries Examples.varTable1))%nat
    /\ NotFoundHandler Examples.varTable2 = NotFoundHandler Examples.varTable1
    /\ entries Examples.varTable2
       = take i (entries Examples.varTable1) ++ {| route := r; handler := h |}
         :: drop i (entries Examples.varTable1)
    /\ entries Examples.varTable2 !! i = Some {| route := r; handler := h |}
    /\ length (entries Examples.varTable2) = S (length (entries Examples.varTable1))
    /\ (forall e, (0 < i)%nat -> entries Examples.varTable1 !! (i - 1)%nat = Some e ->
          0 < compareDynamicRoutes r (route e))
    /\ (forall e, entries Examples.varTable1 !! i = Some e ->
          compareDynamicRoutes r (route e) < 0).
Proof.
  apply (Handle_success_places_entry Plain.Parse Plain.Query
           Examples.varTable1 Examples.varTable2 "GET" "http://h/{a}/x"
           (Some (http.handlerRef 1))).
  vm_compute. reflexivity.
Defined.

(** Removing [/fixed] from the table that holds it. *)
Lemma RemoveHandler_success_deletes_one_witness :
  exists r i e,
    newMuxRoute Plain.Parse Plain.Query "GET" "http://h/fixed" = Ok r
    /\ entries Examples.fixedTable !! i = Some e
    /\ NotFoundHandler Examples.emptyMux = NotFoundHandler Examples.fixedTable
    /\ entries Examples.emptyMux = delete i (entries Examples.fixedTable)
    /\ S (length (entries Examples.emptyMux)) = length (entries Examples.fixedTable)
    /\ compareStaticRoutes r (route e) <= 0
    /\ exists e', e' ∈ entries Examples.fixedTable
                  /\ compareStaticRoutes r (route e') = 0.
Proof.
  apply (RemoveHandler_success_deletes_one Plain.Parse Plain.Query
           Examples.fixedTable Examples.emptyMux "GET" "http://h/fixed").
  vm_compute. reflexivity.
Defined.

(** [/{a}] is refused next to [/fixed]. *)
Lemma Handle_conflict_sound_witness :
  exists r e,
    newMuxRoute Plain.Parse Plain.Query "GET" "http://h/{a}" = Ok r
    /\ e ∈ entries Examples.fixedTable
    /\ compareDynamicRoutes r (route e) = 0
    /\ snd (Handle Plain.Parse Plain.Query Examples.fixedTable "GET" "http://h/{a}"
              (Some (http.handlerRef 1))) = Examples.fixedTable.
Proof.
  apply (Handle_conflict_sound Plain.Parse Plain.Query Examples.fixedTable
           "GET" "http://h/{a}" (Some (http.handlerRef 1))).
  vm_compute. reflexivity.
Defined.

(** A nil handler, and a route that is not in the table. *)
Lemma documented_errors_witness :
  ErrHandlerMustBeNotNil
    ∈ [ErrHandlerMustBeNotNil; ErrMethodMustBeValid; ErrRouteMustNotConflict;
       ErrURLPatternInvalidQueryRoute; ErrURLPatternInvalidPathVar;
       ErrURLPatternMustBeValid]
  /\ ErrRouteMustExist
       ∈ [ErrMethodMustBeValid; ErrRouteMustExist; ErrURLPatternInvalidQueryRoute;
          ErrURLPatternInvalidPathVar; ErrURLPatternMustBeValid].
Proof.
  split.
  - apply (proj1 (documented_errors Plain.Parse Plain.Query Examples.fixedTable
                    "GET" "http://h/other" None ErrHandlerMustBeNotNil)).
    vm_compute. reflexivity.
  - apply (proj2 (documented_errors Plain.Parse Plain.Query Examples.fixedTable
                    "GET" "http://h/other" None ErrRouteMustExist)).
    vm_compute. reflexivity.
Defined.

(** ** The comparators as orders *)

Section ComparatorOrders.

Lemma Compare_opp (a b : string) : GoStrings.Compare b a = - GoStrings.Compare a b.
Proof.
  unfold GoStrings.Compare. rewrite (String.compare_antisym a b).
  now destruct (String.compare b a).
Qed.

Lemma forRange_opp (body1 body2 : nat -> option Z) (idxs : list nat) :
  (forall i, i ∈ idxs -> body2 i = option_map Z.opp (body1 i)) ->
  forRange body2 idxs = option_map Z.opp (forRange body1 idxs).
Proof.
  induction idxs as [|i idxs IH]; intros Hopp; cbn [forRange]; [reflexivity|].
  rewrite (Hopp i) by now left.
  destruct (body1 i); cbn [option_map]; [reflexivity|].
  apply IH. intros j Hj. apply Hopp. now right.
Qed.

Lemma forRange_Some_inv {A : Type} (body : nat -> option A) (idxs : list nat) (r : A) :
  forRange body idxs = Some r -> exists i, i ∈ idxs /\ body i = Some r.
Proof.
  induction idxs as [|i idxs IH]; cbn [forRange]; [discriminate|].
  destruct (body i) as [r'|] eqn:Hi.
  - intros [= <-]. exists i. split; [now left|exact Hi].
  - intros H. destruct (IH H) as (j & Hj & Hb). exists j. split; [now right|exact Hb].
Qed.

Lemma forRange_None_inv {A : Type} (body : nat -> option A) (idxs : list nat) :
  forRange body idxs = None -> forall i, i ∈ idxs -> body i = None.
Proof.
  induction idxs as [|i idxs IH]; cbn [forRange]; intros H j Hj.
  - now apply elem_of_nil in Hj.
  - destruct (body i) eqn:Hi; [discriminate|].
    apply elem_of_cons in Hj as [->|Hj]; [exact Hi|now apply IH].
Qed.

Lemma compareMethodSchemeHost_opp (m1 m2 s1 s2 h1 h2 : string) :
  compareMethodSchemeHost m2 m1 s2 s1 h2 h1
  = - compareMethodSchemeHost m1 m2 s1 s2 h1 h2.
Proof.
  unfold compareMethodSchemeHost.
  rewrite (Compare_opp m1 m2), (Compare_opp s1 s2), (Compare_opp h1 h2).
  destruct (Z.eqb_spec (GoStrings.Compare m1 m2) 0) as [->|Hm]; cbn [negb Z.opp Z.eqb].
  2: { destruct (Z.eqb_spec (- GoStrings.Compare m1 m2) 0); [lia|reflexivity]. }
  destruct (Z.eqb_spec (GoStrings.Compare s1 s2) 0) as [->|Hs]; cbn [negb Z.opp Z.eqb].
  2: { destruct (Z.eqb_spec (- GoStrings.Compare s1 s2) 0); [lia|reflexivity]. }
  destruct (Z.eqb_spec (GoStrings.Compare h1 h2) 0) as [->|Hh]; cbn [negb Z.opp Z.eqb].
  - reflexivity.
  - destruct (Z.eqb_spec (- GoStrings.Compare h1 h2) 0); [lia|reflexivity].
Qed.

Lemma compareMethodSchemeHost_zero (m1 m2 s1 s2 h1 h2 : string) :
  compareMethodSchemeHost m1 m2 s1 s2 h1 h2 = 0 <-> m1 = m2 /\ s1 = s2 /\ h1 = h2.
Proof.
  split.
  - unfold compareMethodSchemeHost.
    destruct (Z.eqb_spec (GoStrings.Compare m1 m2) 0) as [Hm|Hm]; cbn [negb]; [|lia].
    destruct (Z.eqb_spec (GoStrings.Compare s1 s2) 0) as [Hs|Hs]; cbn [negb]; [|lia].
    destruct (Z.eqb_spec (GoStrings.Compare h1 h2) 0) as [Hh|Hh]; cbn [negb]; [|lia].
    intros _. now rewrite !Compare_eq_0 in *.
  - intros (-> & -> & ->). apply compareMethodSchemeHost_refl.
Qed.

(** Undoing the sign of a three-way result that is returned when it is not
    zero. *)
Lemma nonzero_opp (r k k' : Z) :
  k' = - k ->
  (if negb (- r =? 0) then - r else k') = - (if negb (r =? 0) then r else k).
Proof.
  intros ->. destruct (Z.eqb_spec r 0) as [->|Hr]; [reflexivity|].
  destruct (Z.eqb_spec (- r) 0); [lia|reflexivity].
Qed.

Lemma dynamicSegment_opp (r1 r2 : muxRoute) (i : nat) :
  dynamicSegment r2 r1 i = option_map Z.opp (dynamicSegment r1 r2 i).
Proof.
  unfold dynamicSegment. rewrite orb_comm.
  destruct (_ || _); [reflexivity|].
  rewrite (Compare_opp (path r1 !!! i) (path r2 !!! i)).
  destruct (varSeg (path r1 !!! i)), (varSeg (path r2 !!! i));
    cbn [Bool.eqb negb option_map]; try reflexivity.
  destruct (Z.eqb_spec (GoStrings.Compare (path r1 !!! i) (path r2 !!! i)) 0) as [->|Hc];
    [reflexivity|].
  cbn [negb option_map].
  destruct (Z.eqb_spec (- GoStrings.Compare (path r1 !!! i) (path r2 !!! i)) 0);
    [lia|reflexivity].
Qed.

Lemma dynamicQueryEntry_opp (r1 r2 : muxRoute) (i : nat) :
  dynamicQueryEntry r2 r1 i = option_map Z.opp (dynamicQueryEntry r1 r2 i).
Proof.
  unfold dynamicQueryEntry.
  rewrite (Compare_opp (Name (query r1 !!! i)) (Name (query r2 !!! i))).
  rewrite (Compare_opp (Value (query r1 !!! i)) (Value (query r2 !!! i))).
  rewrite (orb_comm (String.eqb (Value (query r2 !!! i)) "")).
  destruct (Z.eqb_spec (GoStrings.Compare (Name (query r1 !!! i))
                          (Name (query r2 !!! i))) 0) as [->|Hn].
  - cbn [Z.opp Z.eqb negb]. destruct (_ || _); [reflexivity|].
    destruct (Z.eqb_spec (GoStrings.Compare (Value (query r1 !!! i))
                            (Value (query r2 !!! i))) 0) as [->|Hv]; [reflexivity|].
    destruct (Z.eqb_spec (- GoStrings.Compare (Value (query r1 !!! i))
                              (Value (query r2 !!! i))) 0); [lia|reflexivity].
  - destruct (Z.eqb_spec (- GoStrings.Compare (Name (query r1 !!! i))
                              (Name (query r2 !!! i))) 0); [lia|reflexivity].
Qed.

Lemma staticSegment_opp (r1 r2 : muxRoute) (i : nat) :
  staticSegment r2 r1 i = option_map Z.opp (staticSegment r1 r2 i).
Proof.
  unfold staticSegment. rewrite (Compare_opp (path r1 !!! i) (path r2 !!! i)).
  destruct (Z.eqb_spec (GoStrings.Compare (path r1 !!! i) (path r2 !!! i)) 0) as [->|Hc];
    [reflexivity|].
  destruct (Z.eqb_spec (- GoStrings.Compare (path r1 !!! i) (path r2 !!! i)) 0);
    [lia|reflexivity].
Qed.

Lemma staticQueryEntry_opp (r1 r2 : muxRoute) (i : nat) :
  staticQueryEntry r2 r1 i = option_map Z.opp (staticQueryEntry r1 r2 i).
Proof.
  unfold staticQueryEntry.
  rewrite (Compare_opp (Name (query r1 !!! i)) (Name (query r2 !!! i))).
  rewrite (Compare_opp (Value (query r1 !!! i)) (Value (query r2 !!! i))).
  destruct (Z.eqb_spec (GoStrings.Compare (Name (query r1 !!! i))
                          (Name (query r2 !!! i))) 0) as [->|Hn].
  - cbn [Z.opp Z.eqb negb].
    destruct (Z.eqb_spec (GoStrings.Compare (Value (query r1 !!! i))
                            (Value (query r2 !!! i))) 0) as [->|Hv]; [reflexivity|].
    destruct (Z.eqb_spec (- GoStrings.Compare (Value (query r1 !!! i))
                              (Value (query r2 !!! i))) 0); [lia|reflexivity].
  - destruct (Z.eqb_spec (- GoStrings.Compare (Name (query r1 !!! i))
                              (Name (query r2 !!! i))) 0); [lia|reflexivity].
Qed.

(** The shape shared by the Dynamic and the Static comparator, with the
    bodies of their two loops left open. *)
Lemma comparator_opp (msh msh' : Z) (p1 p2 q1 q2 : nat)
    (seg seg' qe qe' : nat -> option Z) :
  msh' = - msh ->
  (forall i, seg' i = option_map Z.opp (seg i)) ->
  (forall i, qe' i = option_map Z.opp (qe i)) ->
  (if negb (msh' =? 0) then msh' else
   match forRange seg' (seq 0 (Nat.min p2 p1)) with
   | Some r => r
   | None =>
       let r := Z.of_nat p2 - Z.of_nat p1 in
       if negb (r =? 0) then r else
       let r := Z.of_nat q1 - Z.of_nat q2 in
       if negb (r =? 0) then r else
       match forRange qe' (seq 0 q2) with Some r => r | None => 0 end
   end)
  = - (if negb (msh =? 0) then msh else
       match forRange seg (seq 0 (Nat.min p1 p2)) with
       | Some r => r
       | None =>
           let r := Z.of_nat p1 - Z.of_nat p2 in
           if negb (r =? 0) then r else
           let r := Z.of_nat q2 - Z.of_nat q1 in
           if negb (r =? 0) then r else
           match forRange qe (seq 0 q1) with Some r => r | None => 0 end
       end).
Proof.
  intros -> Hseg Hqe. apply nonzero_opp.
  rewrite (Nat.min_comm p2 p1).
  rewrite (forRange_opp seg seg') by (intros; apply Hseg).
  destruct (forRange seg _); cbn [option_map]; [reflexivity|]. cbv zeta.
  replace (Z.of_nat p2 - Z.of_nat p1) with (- (Z.of_nat p1 - Z.of_nat p2)) by lia.
  apply nonzero_opp.
  replace (Z.of_nat q1 - Z.of_nat q2) with (- (Z.of_nat q2 - Z.of_nat q1)) by lia.
  destruct (Z.eqb_spec (Z.of_nat q2 - Z.of_nat q1) 0) as [Hq|Hq].
  - rewrite Hq. cbn [Z.opp Z.eqb negb]. assert (q2 = q1) as -> by lia.
    rewrite (forRange_opp qe qe') by (intros; apply Hqe).
    now destruct (forRange qe _).
  - destruct (Z.eqb_spec (- (Z.of_nat q2 - Z.of_nat q1)) 0); [lia|reflexivity].
Qed.

Lemma compareDynamicRoutes_opp (r1 r2 : muxRoute) :
  compareDynamicRoutes r2 r1 = - compareDynamicRoutes r1 r2.
Proof.
  unfold compareDynamicRoutes. cbv zeta.
  apply comparator_opp;
    [apply compareMethodSchemeHost_opp|apply dynamicSegment_opp
    |apply dynamicQueryEntry_opp].
Qed.

Lemma compareStaticRoutes_opp (r1 r2 : muxRoute) :
  compareStaticRoutes r2 r1 = - compareStaticRoutes r1 r2.
Proof.
  unfold compareStaticRoutes. cbv zeta.
  apply comparator_opp;
    [apply compareMethodSchemeHost_opp|apply staticSegment_opp
    |apply staticQueryEntry_opp].
Qed.

Lemma compareDynamicRoutes_refl (r : muxRoute) : compareDynamicRoutes r r = 0.
Proof. pose proof (compareDynamicRoutes_opp r r). lia. Qed.

End ComparatorOrders.

(** X7. Both table comparators are antisymmetric: swapping the two routes
    negates the result, and a route compares equal to itself.  So a
    conflict does not depend on which of the two routes is the new one, and
    neither does static identity. *)
Theorem comparators_antisymmetric (r1 r2 : muxRoute) :
  compareDynamicRoutes r2 r1 = - compareDynamicRoutes r1 r2
  /\ compareStaticRoutes r2 r1 = - compareStaticRoutes r1 r2
  /\ compareDynamicRoutes r1 r1 = 0
  /\ compareStaticRoutes r1 r1 = 0.
Proof.
  split; [apply compareDynamicRoutes_opp|].
  split; [apply compareStaticRoutes_opp|].
  split; [apply compareDynamicRoutes_refl|apply compareStaticRoutes_refl].
Qed.

(** ** Static identity *)

Section StaticIdentity.

Lemma list_eq_lookup_total {A : Type} `{Inhabited A} (l1 l2 : list A) :
  length l1 = length l2 ->
  (forall i, (i < length l1)%nat -> l1 !!! i = l2 !!! i) ->
  l1 = l2.
Proof.
  intros Hlen Hall. apply list_eq. intros i.
  destruct (decide (i < length l1)%nat) as [Hi|Hi].
  - rewrite !list_lookup_lookup_total_lt by lia. f_equal. now apply Hall.
  - rewrite !lookup_ge_None_2 by lia. reflexivity.
Qed.

Lemma staticSegment_None (r1 r2 : muxRoute) (i : nat) :
  staticSegment r1 r2 i = None <-> path r1 !!! i = path r2 !!! i.
Proof.
  unfold staticSegment. rewrite <- Compare_eq_0.
  destruct (Z.eqb_spec (GoStrings.Compare (path r1 !!! i) (path r2 !!! i)) 0);
    cbn [negb]; split; congruence.
Qed.

Lemma staticSegment_Some (r1 r2 : muxRoute) (i : nat) (r : Z) :
  staticSegment r1 r2 i = Some r -> r <> 0.
Proof.
  unfold staticSegment.
  destruct (Z.eqb_spec (GoStrings.Compare (path r1 !!! i) (path r2 !!! i)) 0);
    cbn [negb]; congruence.
Qed.

Lemma staticQueryEntry_None (r1 r2 : muxRoute) (i : nat) :
  staticQueryEntry r1 r2 i = None <-> query r1 !!! i = query r2 !!! i.
Proof.
  unfold staticQueryEntry.
  destruct (Z.eqb_spec (GoStrings.Compare (Name (query r1 !!! i))
                          (Name (query r2 !!! i))) 0) as [Hn|Hn]; cbn [negb].
  - destruct (Z.eqb_spec (GoStrings.Compare (Value (query r1 !!! i))
                            (Value (query r2 !!! i))) 0) as [Hv|Hv]; cbn [negb].
    + apply Compare_eq_0 in Hn, Hv. split; [intros _|reflexivity].
      destruct (query r1 !!! i), (query r2 !!! i); simpl in *; congruence.
    + split; [discriminate|]. intros E. rewrite E, Compare_refl in Hv. congruence.
  - split; [discriminate|]. intros E. rewrite E, Compare_refl in Hn. congruence.
Qed.

Lemma staticQueryEntry_Some (r1 r2 : muxRoute) (i : nat) (r : Z) :
  staticQueryEntry r1 r2 i = Some r -> r <> 0.
Proof.
  unfold staticQueryEntry.
  destruct (Z.eqb_spec (GoStrings.Compare (Name (query r1 !!! i))
                          (Name (query r2 !!! i))) 0); cbn [negb]; [|congruence].
  destruct (Z.eqb_spec (GoStrings.Compare (Value (query r1 !!! i))
                          (Value (query r2 !!! i))) 0); cbn [negb]; congruence.
Qed.

(** The Static comparator is zero exactly between routes that agree on
    everything it reads. *)
Lemma compareStaticRoutes_zero (r1 r2 : muxRoute) :
  compareStaticRoutes r1 r2 = 0 <->
  method r1 = method r2 /\ scheme r1 = scheme r2 /\ host r1 = host r2
  /\ path r1 = path r2 /\ query r1 = query r2.
Proof.
  split.
  - unfold compareStaticRoutes. cbv zeta.
    destruct (Z.eqb_spec (compareMethodSchemeHost (method r1) (method r2)
                (scheme r1) (scheme r2) (host r1) (host r2)) 0) as [Hmsh|Hmsh];
      cbn [negb]; [|congruence].
    apply compareMethodSchemeHost_zero in Hmsh as (Hm & Hs & Hh).
    destruct (forRange (staticSegment r1 r2) _) as [r|] eqn:Hsegs.
    { apply forRange_Some_inv in Hsegs as (i & _ & Hi).
      apply staticSegment_Some in Hi. congruence. }
    destruct (Z.eqb_spec (Z.of_nat (length (path r1)) - Z.of_nat (length (path r2))) 0)
      as [Hlen|Hlen]; cbn [negb]; [|congruence].
    destruct (Z.eqb_spec (Z.of_nat (length (query r2)) - Z.of_nat (length (query r1))) 0)
      as [Hqlen|Hqlen]; cbn [negb]; [|congruence].
    destruct (forRange (staticQueryEntry r1 r2) _) as [r|] eqn:Hqs.
    { apply forRange_Some_inv in Hqs as (i & _ & Hi).
      apply staticQueryEntry_Some in Hi. congruence. }
    intros _. repeat split; try assumption.
    + apply list_eq_lookup_total; [lia|]. intros i Hi.
      apply staticSegment_None. apply (forRange_None_inv _ _ Hsegs).
      apply elem_of_seq. lia.
    + apply list_eq_lookup_total; [lia|]. intros i Hi.
      apply staticQueryEntry_None. apply (forRange_None_inv _ _ Hqs).
      apply elem_of_seq. lia.
  - intros (Hm & Hs & Hh & Hp & Hq).
    rewrite <- (compareStaticRoutes_refl r1).
    unfold compareStaticRoutes, staticSegment, staticQueryEntry.
    now rewrite <- Hm, <- Hs, <- Hh, <- Hp, <- Hq.
Qed.

(** The Dynamic comparator reads the same five fields of a route. *)
Lemma compareDynamicRoutes_fields (r1 r2 r2' : muxRoute) :
  method r2 = method r2' -> scheme r2 = scheme r2' -> host r2 = host r2' ->
  path r2 = path r2' -> query r2 = query r2' ->
  compareDynamicRoutes r1 r2 = compareDynamicRoutes r1 r2'.
Proof.
  intros Hm Hs Hh Hp Hq.
  unfold compareDynamicRoutes, dynamicSegment, dynamicQueryEntry.
  now rewrite Hm, Hs, Hh, Hp, Hq.
Qed.

End StaticIdentity.

(** X8. The Static comparator is zero between two routes exactly when they
    have the same method, scheme, host, path segments (variables by their
    spelling) and query entries. *)
Theorem static_identity (r1 r2 : muxRoute) :
  compareStaticRoutes r1 r2 = 0 <->
  method r1 = method r2 /\ scheme r1 = scheme r2 /\ host r1 = host r2
  /\ path r1 = path r2 /\ query r1 = query r2.
Proof. apply compareStaticRoutes_zero. Qed.

(** The route of [/{a}/x] against itself. *)
Lemma static_identity_witness :
  compareStaticRoutes Examples.variableRoute Examples.variableRoute = 0.
Proof.
  apply (proj2 (static_identity Examples.variableRoute Examples.variableRoute)).
  repeat split; reflexivity.
Defined.

(** X9. A route that is statically identical to another one conflicts with
    it: where the Static comparator is zero, so is the Dynamic comparator. *)
Theorem static_identity_conflicts (r1 r2 : muxRoute) :
  compareStaticRoutes r1 r2 = 0 -> compareDynamicRoutes r1 r2 = 0.
Proof.
  intros H. apply compareStaticRoutes_zero in H as (Hm & Hs & Hh & Hp & Hq).
  rewrite <- (compareDynamicRoutes_fields r1 r1 r2) by assumption.
  apply compareDynamicRoutes_refl.
Qed.

(** The route of [/{a}/x] against itself. *)
Lemma static_identity_conflicts_witness :
  compareDynamicRoutes Examples.variableRoute Examples.variableRoute = 0.
Proof.
  apply (static_identity_conflicts Examples.variableRoute Examples.variableRoute).
  vm_compute. reflexivity.
Defined.

(** ** Routes built by [newMuxRoute] *)

Section WellFormedRoutes.

Variable url_Parse : string -> option url.URL.
Variable url_Query : url.URL -> url_Values.

Lemma scanPathVars_Ok (lastSeg : Z) (pathSegments : list string) :
  forall (i : nat) (vars0 vars : gmap string nat),
    scanPathVars lastSeg i pathSegments vars0 = Ok vars ->
    (forall k x, vars0 !! k = Some x -> vars !! k = Some x)
    /\ (forall k x, vars !! k = Some x ->
          vars0 !! k = Some x
          \/ exists seg, (i <= x)%nat /\ pathSegments !! (x - i)%nat = Some seg
                         /\ varSeg seg = true /\ k = varName seg /\ k <> ""%string
                         /\ (k = "*"%string -> Z.of_nat x = lastSeg))
    /\ (forall j seg, pathSegments !! j = Some seg -> varSeg seg = true ->
          vars !! varName seg = Some (i + j)%nat).
Proof.
  induction pathSegments as [|v rest IH]; intros i vars0 vars; cbn [scanPathVars].
  - intros [= <-]. split; [auto|]. split; [auto|]. intros j seg Hj. discriminate.
  - change (GoStrings.TrimSpace (GoStrings.Trim v "{}")) with (varName v).
    destruct (negb (GoStrings.HasPrefix v "{") || negb (GoStrings.HasSuffix v "}"))
      eqn:Hnotvar.
    + intros Hscan. destruct (IH _ _ _ Hscan) as (Hkeep & Horigin & Hall).
      assert (Hv : varSeg v = false).
      { unfold varSeg. apply orb_true_iff in Hnotvar as [H|H];
          apply negb_true_iff in H; rewrite H; [reflexivity|apply andb_false_r]. }
      split; [exact Hkeep|]. split.
      * intros k x Hk. destruct (Horigin k x Hk) as [H|(seg & Hx & Hseg & Hrest)];
          [now left|right].
        exists seg. split; [lia|]. split; [|exact Hrest].
        replace (x - i)%nat with (S (x - S i)) by lia. exact Hseg.
      * intros [|j] seg Hj Hvar.
        -- injection Hj as ->. congruence.
        -- rewrite (Hall j seg Hj Hvar). f_equal. lia.
    + assert (Hv : varSeg v = true).
      { unfold varSeg. apply orb_false_iff in Hnotvar as [H1 H2].
        apply negb_false_iff in H1, H2. now rewrite H1, H2. }
      destruct (String.eqb_spec (varName v) "") as [|Hname]; [discriminate|].
      destruct (String.eqb (varName v) "*" && negb (Z.of_nat i =? lastSeg)) eqn:Hstar;
        [discriminate|].
      destruct (vars0 !! varName v) eqn:Hfresh; [discriminate|].
      intros Hscan. destruct (IH _ _ _ Hscan) as (Hkeep & Horigin & Hall).
      assert (Hhere : vars !! varName v = Some i)
        by (apply Hkeep; apply lookup_insert_eq).
      split; [|split].
      * intros k x Hk. apply Hkeep. rewrite lookup_insert_ne; [exact Hk|].
        intros <-. congruence.
      * intros k x Hk. destruct (Horigin k x Hk) as [H|(seg & Hx & Hseg & Hrest)].
        -- destruct (decide (varName v = k)) as [<-|Hne].
           ++ rewrite lookup_insert_eq in H. injection H as <-. right.
              exists v. split; [lia|]. rewrite Nat.sub_diag.
              repeat split; try assumption; try reflexivity.
              intros Hk'. rewrite Hk' in Hstar. cbn [String.eqb Ascii.eqb Bool.eqb andb] in Hstar.
              apply negb_false_iff, Z.eqb_eq in Hstar. exact Hstar.
           ++ rewrite lookup_insert_ne in H by assumption. now left.
        -- right. exists seg. split; [lia|]. split; [|exact Hrest].
           replace (x - i)%nat with (S (x - S i)) by lia. exact Hseg.
      * intros [|j] seg Hj Hvar.
        -- injection Hj as <-. rewrite Hhere. f_equal. lia.
        -- rewrite (Hall j seg Hj Hvar). f_equal. lia.
Qed.

(** Everything [newMuxRoute] has checked before it returns a route. *)
Lemma newMuxRoute_checked (httpMethod urlPattern : string) (r : muxRoute) :
  newMuxRoute url_Parse url_Query httpMethod urlPattern = Ok r ->
  containsString defaultAllowedHTTPMethods (method r) = true
  /\ containsString defaultAllowedSchemes (scheme r) = true
  /\ host r <> ""%string
  /\ GoStrings.HasPrefix (host r) ":" = false
  /\ exists u,
       url_Parse urlPattern = Some u
       /\ path r = splitPathSegs (url.Path u)
       /\ scanPathVars (Z.of_nat (length (path r)) - 1) 0 (path r) ∅ = Ok (vars r)
       /\ newQueryRoute (url_Query u) = Ok (query r).
Proof.
  unfold newMuxRoute.
  destruct (containsString defaultAllowedHTTPMethods httpMethod) eqn:Hm;
    cbn [negb]; [|discriminate].
  destruct (String.eqb urlPattern ""); [discriminate|].
  destruct (url_Parse urlPattern) as [u|] eqn:Hp; [|discriminate].
  destruct (url.IsAbs u); cbn [negb]; [|discriminate].
  destruct (containsString defaultAllowedSchemes (url.Scheme u)) eqn:Hs;
    cbn [negb]; [|discriminate].
  destruct (String.eqb_spec (url.Host u) "") as [|Hh]; [discriminate|].
  destruct (GoStrings.HasPrefix (url.Host u) ":") eqn:Hc; [discriminate|].
  destruct (scanPathVars _ _ _ _) as [vs|] eqn:Hv; cbn [bind]; [|discriminate].
  destruct (newQueryRoute (url_Query u)) as [q|] eqn:Hq; cbn [bind]; [|discriminate].
  intros [= <-]. cbn [method scheme host path vars query].
  repeat split; try assumption. exists u. repeat split; assumption.
Qed.

Lemma newMuxRoute_wellFormedVars (httpMethod urlPattern : string) (r : muxRoute) :
  newMuxRoute url_Parse url_Query httpMethod urlPattern = Ok r -> wellFormedVars r.
Proof.
  intros Hr. apply newMuxRoute_checked in Hr as (_ & _ & _ & _ & u & _ & _ & Hv & _).
  destruct (scanPathVars_Ok _ _ _ _ _ Hv) as (_ & Horigin & Hall). split.
  - intros k i Hk. destruct (Horigin k i Hk) as [H|(seg & _ & Hseg & Hvar & Hname & Hne & Hstar)].
    + rewrite lookup_empty in H. discriminate.
    + exists seg. rewrite Nat.sub_0_r in Hseg. repeat split; try assumption.
      intros Hk'. specialize (Hstar Hk'). lia.
  - intros i seg Hseg Hvar. exact (Hall i seg Hseg Hvar).
Qed.

(** X10. A route that [newMuxRoute] returns has one of the nine methods, the
    scheme http or https and a host that is not empty and does not start
    with a colon; its map [vars] holds exactly its variable segments, each
    under the name it declares and with its index in the path, no name is
    empty, and the name [*] belongs to the last segment. *)
Theorem newMuxRoute_valid (httpMethod urlPattern : string) (r : muxRoute) :
  newMuxRoute url_Parse url_Query httpMethod urlPattern = Ok r ->
  method r = httpMethod
  /\ method r ∈ defaultAllowedHTTPMethods
  /\ (scheme r = "http"%string \/ scheme r = "https"%string)
  /\ host r <> ""%string
  /\ GoStrings.HasPrefix (host r) ":" = false
  /\ wellFormedVars r.
Proof.
  intros Hr. pose proof (newMuxRoute_wellFormedVars _ _ _ Hr) as Hvars.
  pose proof (newMuxRoute_Ok url_Parse url_Query _ _ _ Hr)
    as (u' & vs & q & _ & _ & _ & _ & _ & Heq).
  destruct (newMuxRoute_checked _ _ _ Hr) as (Hm & Hs & Hh & Hc & _).
  split; [now subst r|]. split; [|split; [|auto]].
  - unfold containsString in Hm. apply existsb_exists in Hm as (x & Hx & Heqb).
    apply String.eqb_eq in Heqb. subst x. now apply list_elem_of_In.
  - unfold containsString, defaultAllowedSchemes in Hs.
    cbn [existsb] in Hs. rewrite orb_false_r in Hs.
    apply orb_true_iff in Hs as [H|H]; apply String.eqb_eq in H; auto.
Qed.

End WellFormedRoutes.

(** The route of [GET http://h/{a}/x]. *)
Lemma newMuxRoute_valid_witness :
  method Examples.variableRoute = "GET"%string
  /\ method Examples.variableRoute ∈ defaultAllowedHTTPMethods
  /\ (scheme Examples.variableRoute = "http"%string
      \/ scheme Examples.variableRoute = "https"%string)
  /\ host Examples.variableRoute <> ""%string
  /\ GoStrings.HasPrefix (host Examples.variableRoute) ":" = false
  /\ wellFormedVars Examples.variableRoute.
Proof.
  apply (newMuxRoute_valid Plain.Parse Plain.Query "GET" "http://h/{a}/x").
  vm_compute. reflexivity.
Defined.

(** ** Extraction of path variables and dispatch *)

Section Dispatch.

Variable url_Query : url.URL -> url_Values.
Variable url_EscapedPath : url.URL -> string.

Lemma requestSegment_Some_zero (reqSegs : list string) (r : muxRoute) (i : nat) :
  requestSegment reqSegs r i = Some 0 -> S i = length (path r).
Proof.
  unfold requestSegment.
  destruct (Z.eqb_spec (Z.of_nat i) (Z.of_nat (length (path r)) - 1)) as [Hi|Hi];
    cbn [andb].
  - intros _. lia.
  - destruct (varSeg _); [discriminate|].
    destruct (Z.eqb_spec (GoStrings.Compare (reqSegs !!! i) (path r !!! i)) 0);
      cbn [negb]; congruence.
Qed.

(** A request that compares equal to a route has at least as many segments
    as the route. *)
Lemma compareRequestRoute_zero_length (req : http.Request) (r : muxRoute) :
  compareRequestRoute url_EscapedPath req r = 0 ->
  (length (path r)
   <= length (splitPathSegs (url_RequestURI url_EscapedPath (http.URL req))))%nat.
Proof.
  unfold compareRequestRoute. cbv zeta.
  match goal with
  | |- context [negb (?c =? 0)] => destruct (Z.eqb_spec c 0)
  end; cbn [negb]; [|congruence].
  destruct (forRange _ _) as [c|] eqn:Hloop.
  - intros ->. apply forRange_Some_inv in Hloop as (i & Hi & Hseg).
    apply requestSegment_Some_zero in Hseg. apply elem_of_seq in Hi. lia.
  - lia.
Qed.

(** The loop of [PathVars] over a map whose indexes are all inside the
    path. *)
Lemma pathVars_fold (pathSegs : list string) (vars : gmap string nat) :
  (forall k v, vars !! k = Some v -> (v < length pathSegs)%nat) ->
  exists pv,
    map_fold (pathVar pathSegs) (Some ∅) vars = Some pv
    /\ forall k, pv !! k = vars !! k ≫= pathVarValue pathSegs k.
Proof.
  apply (map_fold_weak_ind
    (fun acc (vs : gmap string nat) =>
       (forall k v, vs !! k = Some v -> (v < length pathSegs)%nat) ->
       exists pv, acc = Some pv /\ forall k, pv !! k = vs !! k ≫= pathVarValue pathSegs k)).
  - intros _. exists ∅. split; [reflexivity|]. intros k. now rewrite !lookup_empty.
  - intros k v vs acc Hfresh IH Hbound.
    destruct IH as (pv & -> & Hpv).
    { intros k' v' Hk'. apply (Hbound k' v'). rewrite lookup_insert_ne; [exact Hk'|].
      intros <-. congruence. }
    assert (Hv : (v < length pathSegs)%nat) by (apply (Hbound k); apply lookup_insert_eq).
    destruct (lookup_lt_is_Some_2 pathSegs v Hv) as [seg Hseg].
    unfold pathVar. cbn [mbind option_bind].
    destruct (String.eqb k "*") eqn:Hstar.
    + replace (v <=? length pathSegs)%nat with true by (symmetry; apply Nat.leb_le; lia).
      eexists. split; [reflexivity|]. intros k'.
      destruct (decide (k = k')) as [<-|Hne].
      * rewrite !lookup_insert_eq. cbn [mbind option_bind]. unfold pathVarValue.
        now rewrite Hstar.
      * rewrite !lookup_insert_ne by assumption. apply Hpv.
    + rewrite Hseg. cbn [mbind option_bind]. eexists. split; [reflexivity|].
      intros k'. destruct (decide (k = k')) as [<-|Hne].
      * rewrite !lookup_insert_eq. cbn [mbind option_bind]. unfold pathVarValue.
        now rewrite Hstar.
      * rewrite !lookup_insert_ne by assumption. apply Hpv.
Qed.

Lemma firstAcceptable_Some (candidates : list muxEntry) (q : url_Values) (e : muxEntry) :
  firstAcceptable candidates q = Some e ->
  exists k, candidates !! k = Some e
            /\ Acceptable (query (route e)) q = true
            /\ forall j e', (j < k)%nat -> candidates !! j = Some e' ->
                 Acceptable (query (route e')) q = false.
Proof.
  induction candidates as [|c candidates IH]; cbn [firstAcceptable]; [discriminate|].
  destruct (Acceptable (query (route c)) q) eqn:Hc.
  - intros [= <-]. exists 0%nat. repeat split; [exact Hc|]. intros j e' Hj. lia.
  - intros H. destruct (IH H) as (k & Hk & Hacc & Hbefore).
    exists (S k). repeat split; [exact Hk|exact Hacc|].
    intros [|j] e' Hj He'; [now injection He' as <-|].
    apply (Hbefore j); [lia|exact He'].
Qed.

Lemma firstAcceptable_None (candidates : list muxEntry) (q : url_Values) :
  firstAcceptable candidates q = None ->
  forall e, e ∈ candidates -> Acceptable (query (route e)) q = false.
Proof.
  induction candidates as [|c candidates IH]; cbn [firstAcceptable]; intros H e He.
  - now apply elem_of_nil in He.
  - destruct (Acceptable (query (route c)) q) eqn:Hc; [discriminate|].
    apply elem_of_cons in He as [->|He]; [exact Hc|now apply IH].
Qed.

End Dispatch.

(** X11. When the search finds the request, the entry at [lo] compares equal
    to it, its map of variables is well formed, and the request URI splits
    into the same segments as the URL path, [PathVars] does not panic and
    returns exactly one value for every variable of the entry: the segment at
    its index, or for [*] the segments from its index on, joined by
    slashes. *)
Theorem PathVars_extracts (url_EscapedPath : url.URL -> string)
    (m : Mux) (req : http.Request) (lo hi : nat) (e : muxEntry) :
  searchRange (length (entries m))
    (fun i => compareRequestRoute url_EscapedPath req (route (entries m !!! i)))
  = (lo, hi, true) ->
  entries m !! lo = Some e ->
  compareRequestRoute url_EscapedPath req (route e) = 0 ->
  wellFormedVars (route e) ->
  splitPathSegs (url_RequestURI url_EscapedPath (http.URL req))
  = splitPathSegs (url.Path (http.URL req)) ->
  exists pv,
    PathVars url_EscapedPath m req = Some pv
    /\ (forall k, vars (route e) !! k = None -> pv !! k = None)
    /\ (forall k v, vars (route e) !! k = Some v ->
          exists s, pathVarValue (splitPathSegs (url.Path (http.URL req))) k v = Some s
                    /\ pv !! k = Some s).
Proof.
  intros Hsearch He Hcmp [Hwf _] Hsegs.
  pose proof (compareRequestRoute_zero_length _ _ _ Hcmp) as Hlen.
  rewrite Hsegs in Hlen.
  assert (Hbound : forall k v, vars (route e) !! k = Some v ->
                     (v < length (splitPathSegs (url.Path (http.URL req))))%nat).
  { intros k v Hk. destruct (Hwf k v Hk) as (seg & Hseg & _).
    apply lookup_lt_Some in Hseg. lia. }
  destruct (pathVars_fold _ _ Hbound) as (pv & Hfold & Hpv).
  exists pv. unfold PathVars. rewrite Hsearch. cbn [negb].
  rewrite He. cbn [mbind option_bind]. split; [exact Hfold|]. split.
  - intros k Hk. now rewrite Hpv, Hk.
  - intros k v Hk. rewrite Hpv, Hk. cbn [mbind option_bind].
    unfold pathVarValue. destruct (String.eqb k "*"); [eauto|].
    destruct (lookup_lt_is_Some_2 _ v (Hbound k v Hk)) as [seg Hseg]. eauto.
Qed.

(** The table of [GET http://h/parent/{*}] and the request for
    [/parent/x/y]. *)
Lemma PathVars_extracts_witness :
  exists pv,
    Examples.pathVars Examples.parentTable (Examples.get "/parent/x/y" "") = Some pv
    /\ (forall k, vars (route (entries Examples.parentTable !!! 0%nat)) !! k = None ->
          pv !! k = None)
    /\ (forall k v, vars (route (entries Examples.parentTable !!! 0%nat)) !! k = Some v ->
          exists s,
            pathVarValue
              (splitPathSegs (url.Path (http.URL (Examples.get "/parent/x/y" "")))) k v
            = Some s
            /\ pv !! k = Some s).
Proof.
  apply (PathVars_extracts Plain.EscapedPath Examples.parentTable
           (Examples.get "/parent/x/y" "") 0 1).
  - vm_compute. reflexivity.
  - vm_compute. reflexivity.
  - vm_compute. reflexivity.
  - apply (newMuxRoute_wellFormedVars Plain.Parse Plain.Query "GET" "http://h/parent/{*}").
    vm_compute. reflexivity.
  - vm_compute. reflexivity.
Defined.

(** X12. [ServeHTTP] calls either the handler of the first entry of the
    range found by the search whose query route accepts the request's query,
    or, when the range is empty or no entry of it accepts, the fallback with
    the [NotFoundHandler] of the [Mux]. *)
Theorem ServeHTTP_first_accepting (url_Query : url.URL -> url_Values)
    (url_EscapedPath : url.URL -> string) (m : Mux) (req : http.Request) :
  let '(lo, hi, found) :=
    searchRange (length (entries m))
      (fun i => compareRequestRoute url_EscapedPath req (route (entries m !!! i))) in
  match ServeHTTP url_Query url_EscapedPath m req with
  | servedBy h =>
      exists k e,
        (lo <= k < hi)%nat /\ entries m !! k = Some e /\ handler e = h
        /\ Acceptable (query (route e)) (url_Query (http.URL req)) = true
        /\ forall j e', (lo <= j < k)%nat -> entries m !! j = Some e' ->
             Acceptable (query (route e')) (url_Query (http.URL req)) = false
  | notFound fallback =>
      fallback = NotFoundHandler m
      /\ forall j e', (lo <= j < hi)%nat -> entries m !! j = Some e' ->
           Acceptable (query (route e')) (url_Query (http.URL req)) = false
  end.
Proof.
  unfold ServeHTTP.
  destruct (searchRange _ _) as [[lo hi] found] eqn:Hsearch.
  destruct (searchRange_found _ _ _ _ _ Hsearch) as (Hb & Hfound & _).
  destruct found; cbn [negb].
  - destruct (firstAcceptable _ _) as [e|] eqn:Hfirst.
    + apply firstAcceptable_Some in Hfirst as (k & Hk & Hacc & Hbefore).
      apply lookup_take_Some in Hk as [Hk Hlt]. rewrite lookup_drop in Hk.
      exists (lo + k)%nat, e. repeat split; try assumption; try lia.
      intros j e' Hj He'. apply (Hbefore (j - lo)%nat); [lia|].
      rewrite lookup_take_lt by lia. rewrite lookup_drop.
      now replace (lo + (j - lo))%nat with j by lia.
    + split; [reflexivity|]. intros j e' Hj He'.
      apply (firstAcceptable_None _ _ Hfirst).
      apply (list_elem_of_lookup_2 _ (j - lo)%nat).
      rewrite lookup_take_lt by lia. rewrite lookup_drop.
      now replace (lo + (j - lo))%nat with j by lia.
  - split; [reflexivity|]. intros j e' Hj. destruct Hfound as [_ Hf].
    specialize (Hf ltac:(lia)). discriminate.
Qed.

(** ** Registering into the empty table *)

Section EmptyTable.

Variable url_Parse : string -> option url.URL.
Variable url_Query : url.URL -> url_Values.

Lemma Handle_single_conflict (nf : option http.Handler) (httpMethod urlPattern : string)
    (e : muxEntry) (h : http.Handler) (r : muxRoute) :
  newMuxRoute url_Parse url_Query httpMethod urlPattern = Ok r ->
  compareDynamicRoutes r (route e) = 0 ->
  Handle url_Parse url_Query {| NotFoundHandler := nf; entries := [e] |}
    httpMethod urlPattern (Some h)
  = (Some ErrRouteMustNotConflict, {| NotFoundHandler := nf; entries := [e] |}).
Proof.
  intros Hr Hcmp. unfold Handle. rewrite Hr. cbn [entries length].
  rewrite searchRange_one. cbn [lookup_total list_lookup_total]. rewrite Hcmp.
  reflexivity.
Qed.

(** X13. Every pattern that parses can be registered in the empty table;
    registering it a second time fails with the conflict error, and removing
    it by the same pattern gives the empty table back. *)
Theorem register_twice_remove_once (nf : option http.Handler)
    (httpMethod urlPattern : string) (h h' : http.Handler) (r : muxRoute) :
  newMuxRoute url_Parse url_Query httpMethod urlPattern = Ok r ->
  let m0 := {| NotFoundHandler := nf; entries := [] |} in
  let m1 := {| NotFoundHandler := nf; entries := [ {| route := r; handler := h |} ] |} in
  Handle url_Parse url_Query m0 httpMethod urlPattern (Some h) = (None, m1)
  /\ Handle url_Parse url_Query m1 httpMethod urlPattern (Some h')
     = (Some ErrRouteMustNotConflict, m1)
  /\ RemoveHandler url_Parse url_Query m1 httpMethod urlPattern = (None, m0).
Proof.
  intros Hr. cbv zeta. split; [|split].
  - exact (Handle_empty url_Parse url_Query nf _ _ h r Hr).
  - apply (Handle_single_conflict nf _ _ _ h' r Hr). apply compareDynamicRoutes_refl.
  - apply (RemoveHandler_single url_Parse url_Query nf _ _ _ r Hr).
    apply compareStaticRoutes_refl.
Qed.

End EmptyTable.

(** [GET http://h/{a}/x], twice, and away again. *)
Lemma register_twice_remove_once_witness :
  Handle Plain.Parse Plain.Query Examples.emptyMux "GET" "http://h/{a}/x"
    (Some (http.handlerRef 0))
  = (None, {| NotFoundHandler := None;
              entries := [ {| route := Examples.variableRoute;
                              handler := http.handlerRef 0 |} ] |})
  /\ Handle Plain.Parse Plain.Query
       {| NotFoundHandler := None;
          entries := [ {| route := Examples.variableRoute;
                          handler := http.handlerRef 0 |} ] |}
       "GET" "http://h/{a}/x" (Some (http.handlerRef 1))
     = (Some ErrRouteMustNotConflict,
        {| NotFoundHandler := None;
           entries := [ {| route := Examples.variableRoute;
                           handler := http.handlerRef 0 |} ] |})
  /\ RemoveHandler Plain.Parse Plain.Query
       {| NotFoundHandler := None;
          entries := [ {| route := Examples.variableRoute;
                          handler := http.handlerRef 0 |} ] |}
       "GET" "http://h/{a}/x"
     = (None, Examples.emptyMux).
Proof.
  apply (register_twice_remove_once Plain.Parse Plain.Query None
           "GET" "http://h/{a}/x" (http.handlerRef 0) (http.handlerRef 1)
           Examples.variableRoute).
  vm_compute. reflexivity.
Defined.

(** ** The order in which a map is visited *)

Section MapOrder.

Lemma sort_Sort_Permutation (entries entries' : queryRoute) :
  entries ≡ₚ entries' -> sort_Sort entries = sort_Sort entries'.
Proof.
  intros Hperm. symmetry. apply sort_Sort_unique.
  - unfold sort_Sort. now rewrite merge_sort_Permutation.
  - apply Sorted_merge_sort, _.
Qed.

Lemma requestEntries_Permutation (values values' : url_Values) :
  values ≡ₚ values' -> requestEntries values ≡ₚ requestEntries values'.
Proof.
  intros Hperm. unfold requestEntries. induction Hperm as [|x l l' _ IH|x y l|l l' l'' _ IH1 _ IH2].
  - reflexivity.
  - cbn [flat_map]. now rewrite IH.
  - cbn [flat_map]. rewrite !app_assoc. f_equiv. apply Permutation_app_comm.
  - now rewrite IH1.
Qed.

Lemma newQueryRoute_result (values : url_Values) :
  (newQueryRoute values = Err ErrURLPatternInvalidQueryRoute
   /\ exists paramName paramValues,
        (paramName, paramValues) ∈ values /\ mixedTests paramValues)
  \/ (newQueryRoute values = Ok (sort_Sort (requestEntries values))
      /\ forall paramName paramValues,
           (paramName, paramValues) ∈ values -> ~ mixedTests paramValues).
Proof.
  destruct (newQueryRoute values) as [route|e] eqn:Hroute.
  - right. destruct (newQueryRoute_Ok _ _ Hroute) as [-> Hmix]. auto.
  - left. unfold newQueryRoute in Hroute.
    destruct (scanParams values []) as [es|e'] eqn:Hscan; [discriminate|].
    cbn [bind] in Hroute. injection Hroute as <-.
    pose proof (scanParams_Err_kind _ _ _ Hscan) as ->.
    split; [reflexivity|]. eapply scanParams_Err, Hscan.
Qed.

End MapOrder.

(** X14. The route that [newQueryRoute] builds, or its error, does not
    depend on the order in which the parameter names are visited. *)
Theorem newQueryRoute_any_order (values values' : url_Values) :
  values ≡ₚ values' -> newQueryRoute values = newQueryRoute values'.
Proof.
  intros Hperm.
  destruct (newQueryRoute_result values) as [[-> (n & vs & Hin & Hmix)]|[-> Hok]],
           (newQueryRoute_result values') as [[-> (n' & vs' & Hin' & Hmix')]|[-> Hok']].
  - reflexivity.
  - exfalso. apply (Hok' n vs); [now rewrite <- Hperm|exact Hmix].
  - exfalso. apply (Hok n' vs'); [now rewrite Hperm|exact Hmix'].
  - f_equal. apply sort_Sort_Permutation. now apply requestEntries_Permutation.
Qed.

(** [?tag=a&tag=b&p] with [p] visited first or last. *)
Lemma newQueryRoute_any_order_witness :
  newQueryRoute [("tag", ["a"; "b"]); ("p", [""])]%string
  = newQueryRoute [("p", [""]); ("tag", ["a"; "b"])]%string.
Proof.
  apply newQueryRoute_any_order. apply Permutation_swap.
Defined.

(** X15. Whether a route accepts a request depends on the (name, value)
    pairs of the request only, not on the order of its names nor on the
    order of the values of a name. *)
Theorem Acceptable_any_order (route : queryRoute) (requestQueryValues values' : url_Values) :
  requestEntries requestQueryValues ≡ₚ requestEntries values' ->
  Acceptable route requestQueryValues = Acceptable route values'.
Proof.
  intros Hperm. rewrite !Acceptable_allConsumed.
  now rewrite (sort_Sort_Permutation _ _ Hperm).
Qed.

(** [?tag=b&tag=a&other=x] and [?other=x&tag=a&tag=b]. *)
Lemma Acceptable_any_order_witness :
  Acceptable tagRoute [("tag", ["b"; "a"]); ("other", ["x"])]%string
  = Acceptable tagRoute [("other", ["x"]); ("tag", ["a"; "b"])]%string.
Proof.
  apply Acceptable_any_order. cbn [requestEntries flat_map map app].
  etransitivity; [apply Permutation_swap|]. symmetry.
  apply (Permutation_cons_append [mkQueryEntry "tag" "a"; mkQueryEntry "tag" "b"]).
Defined.

(** ** Slashes, segments and the listing of a path *)

Section Slashes.

Lemma TrimRight_snoc_slash (s : string) :
  GoStrings.TrimRight (s +:+ "/") "/" = GoStrings.TrimRight s "/".
Proof.
  induction s as [|c s IH]; [reflexivity|].
  change (String c s +:+ "/") with (String c (s +:+ "/")).
  cbn [GoStrings.TrimRight]. now rewrite IH.
Qed.

Lemma Trim_snoc_slash (s : string) :
  GoStrings.Trim (s +:+ "/") "/" = GoStrings.Trim s "/".
Proof.
  unfold GoStrings.Trim. induction s as [|c s IH]; [reflexivity|].
  change (String c s +:+ "/") with (String c (s +:+ "/")).
  cbn [GoStrings.TrimLeft]. destruct (GoStrings.inCutset c "/"); [exact IH|].
  apply (TrimRight_snoc_slash (String c s)).
Qed.

Lemma TrimRight_idempotent (s cutset : string) :
  GoStrings.TrimRight (GoStrings.TrimRight s cutset) cutset
  = GoStrings.TrimRight s cutset.
Proof.
  induction s as [|c s IH]; [reflexivity|]. cbn [GoStrings.TrimRight].
  destruct (GoStrings.TrimRight s cutset) as [|d t] eqn:Ht.
  - destruct (GoStrings.inCutset c cutset) eqn:Hc; [reflexivity|].
    cbn [GoStrings.TrimRight]. now rewrite Hc.
  - cbn [GoStrings.TrimRight] in IH |- *.
    destruct (GoStrings.TrimRight t cutset) eqn:Ht'; now rewrite IH.
Qed.

(** What [TrimLeft] leaves starts with a byte outside the cutset, and
    [TrimRight] keeps the first byte of what it leaves. *)
Lemma TrimLeft_TrimRight (s cutset : string) :
  GoStrings.TrimLeft (GoStrings.TrimRight (GoStrings.TrimLeft s cutset) cutset) cutset
  = GoStrings.TrimRight (GoStrings.TrimLeft s cutset) cutset.
Proof.
  induction s as [|c s IH]; [reflexivity|]. cbn [GoStrings.TrimLeft].
  destruct (GoStrings.inCutset c cutset) eqn:Hc; [exact IH|].
  cbn [GoStrings.TrimRight].
  destruct (GoStrings.TrimRight s cutset); rewrite ?Hc; cbn [GoStrings.TrimLeft];
    now rewrite Hc.
Qed.

Lemma Trim_idempotent (s cutset : string) :
  GoStrings.Trim (GoStrings.Trim s cutset) cutset = GoStrings.Trim s cutset.
Proof.
  unfold GoStrings.Trim. rewrite TrimLeft_TrimRight. apply TrimRight_idempotent.
Qed.

Lemma Split_no_separator (s : string) (sep : ascii) (piece : string) :
  piece ∈ GoStrings.Split s sep ->
  GoStrings.inCutset sep piece = false.
Proof.
  revert piece. induction s as [|c s IH]; intros piece; cbn [GoStrings.Split].
  - intros ->%list_elem_of_singleton. reflexivity.
  - destruct (Ascii.eqb c sep) eqn:Hc.
    + intros [->|H]%elem_of_cons; [reflexivity|now apply IH].
    + pose proof (Split_nonempty s sep) as Hne.
      destruct (GoStrings.Split s sep) as [|p ps]; [congruence|].
      intros [->|H]%elem_of_cons.
      * cbn [GoStrings.inCutset]. rewrite Ascii.eqb_sym, Hc. cbn [orb].
        apply IH. now left.
      * apply IH. now right.
Qed.

Lemma writePath_cons (p : string) (rest : list string) :
  writePath (p :: rest) = String "/" (p +:+ writePath rest).
Proof. reflexivity. Qed.

(** Writing the pieces of a string, each after a slash, gives the string
    back behind one slash. *)
Lemma writePath_Split (s : string) :
  writePath (GoStrings.Split s "/") = String "/" s.
Proof.
  induction s as [|c s IH]; [reflexivity|]. cbn [GoStrings.Split].
  destruct (Ascii.eqb_spec c "/") as [->|Hc].
  - rewrite writePath_cons, IH. reflexivity.
  - pose proof (Split_nonempty s "/") as Hne.
    destruct (GoStrings.Split s "/") as [|piece pieces]; [congruence|].
    rewrite writePath_cons in IH |- *. injection IH as IH.
    change (String c piece +:+ writePath pieces)
      with (String c (piece +:+ writePath pieces)).
    now rewrite IH.
Qed.

Lemma splitPathSegs_Trim (path : string) :
  splitPathSegs (GoStrings.Trim path "/") = splitPathSegs path.
Proof. unfold splitPathSegs. now rewrite Trim_idempotent. Qed.

Lemma splitPathSegs_leading_slash (path : string) :
  splitPathSegs (String "/" path) = splitPathSegs path.
Proof. reflexivity. Qed.

End Slashes.

(** X16. [splitPathSegs] does not see a slash at the start or at the end of
    the path, its segments hold no slash, and it never returns the one
    empty segment. *)
Theorem splitPathSegs_slashes (path : string) :
  splitPathSegs ("/" +:+ path) = splitPathSegs path
  /\ splitPathSegs (path +:+ "/") = splitPathSegs path
  /\ Forall (fun seg => GoStrings.inCutset "/" seg = false) (splitPathSegs path)
  /\ splitPathSegs path <> [""%string].
Proof.
  split; [reflexivity|]. split; [|split].
  - unfold splitPathSegs. now rewrite Trim_snoc_slash.
  - apply Forall_forall. intros seg Hseg. unfold splitPathSegs in Hseg.
    destruct (GoStrings.Split (GoStrings.Trim path "/") "/") as [|s [|s' l]] eqn:Hsplit.
    + now apply elem_of_nil in Hseg.
    + destruct (String.eqb s ""); [now apply elem_of_nil in Hseg|].
      apply (Split_no_separator (GoStrings.Trim path "/") "/"). now rewrite Hsplit.
    + apply (Split_no_separator (GoStrings.Trim path "/") "/"). now rewrite Hsplit.
  - unfold splitPathSegs.
    destruct (GoStrings.Split (GoStrings.Trim path "/") "/") as [|s [|s' l]];
      [discriminate| |discriminate].
    destruct (String.eqb_spec s ""); [discriminate|congruence].
Qed.

(** X17. The path that [muxRoute.String] writes for the segments of a path
    splits into the same segments again. *)
Theorem writePath_splits_back (path : string) :
  splitPathSegs (writePath (splitPathSegs path)) = splitPathSegs path.
Proof.
  rewrite <- (splitPathSegs_Trim path) at 2.
  unfold splitPathSegs at 2.
  pose proof (writePath_Split (GoStrings.Trim path "/")) as Hwrite.
  destruct (GoStrings.Split (GoStrings.Trim path "/") "/") as [|s [|s' l]] eqn:Hsplit.
  - rewrite Hwrite. apply splitPathSegs_leading_slash.
  - destruct (String.eqb_spec s "") as [->|Hs].
    + assert (Hempty : GoStrings.Trim path "/" = EmptyString).
      { rewrite writePath_cons in Hwrite. now injection Hwrite as <-. }
      rewrite Hempty. reflexivity.
    + rewrite Hwrite. apply splitPathSegs_leading_slash.
  - rewrite Hwrite. apply splitPathSegs_leading_slash.
Qed.

(** ** The requests that a route matches *)

Section RequestMatch.

Lemma forRange_shift {A : Type} (body : nat -> option A) (start len : nat) :
  forRange body (seq (S start) len) = forRange (fun i => body (S i)) (seq start len).
Proof.
  revert start. induction len as [|len IH]; intros start; cbn [seq forRange];
    [reflexivity|].
  destruct (body (S start)); [reflexivity|apply IH].
Qed.

Lemma forRange_ext {A : Type} (body body' : nat -> option A) (idxs : list nat) :
  (forall i, body i = body' i) -> forRange body idxs = forRange body' idxs.
Proof.
  intros Hext. induction idxs as [|i idxs IH]; cbn [forRange]; [reflexivity|].
  now rewrite Hext, IH.
Qed.

(** The body of the loop one segment further on is the body for the tails
    of the two paths. *)
Lemma requestSegment_tail (reqSeg routeSeg : string) (reqSegs : list string)
    (r r' : muxRoute) (i : nat) :
  path r = routeSeg :: path r' ->
  requestSegment (reqSeg :: reqSegs) r (S i) = requestSegment reqSegs r' i.
Proof.
  intros Hpath. unfold requestSegment. rewrite Hpath. cbn [length].
  change ((routeSeg :: path r') !!! S i) with (path r' !!! i).
  change ((reqSeg :: reqSegs) !!! S i) with (reqSegs !!! i).
  replace (Z.of_nat (S i) =? Z.of_nat (S (length (path r'))) - 1)
    with (Z.of_nat i =? Z.of_nat (length (path r')) - 1); [reflexivity|].
  destruct (Z.eqb_spec (Z.of_nat i) (Z.of_nat (length (path r')) - 1)),
           (Z.eqb_spec (Z.of_nat (S i)) (Z.of_nat (S (length (path r'))) - 1));
    lia || reflexivity.
Qed.

Lemma comparePaths_zero (routeSegs reqSegs : list string) (r : muxRoute) :
  path r = routeSegs ->
  comparePaths reqSegs r = 0 <-> segmentsMatch reqSegs routeSegs.
Proof.
  revert reqSegs r.
  induction routeSegs as [|routeSeg routeSegs IH]; intros reqSegs r Hpath.
  - unfold comparePaths. rewrite Hpath. cbn [length segmentsMatch].
    rewrite Nat.min_0_r. cbn [seq forRange].
    destruct reqSegs; cbn [length]; split; intros H; try reflexivity;
      try discriminate; lia.
  - destruct reqSegs as [|reqSeg reqSegs]; cbn [segmentsMatch].
    + unfold comparePaths. rewrite Hpath. cbn [length Nat.min seq forRange]. lia.
    + set (r' := {| method := method r; scheme := scheme r; host := host r;
                    path := routeSegs; vars := vars r; query := query r |}).
      assert (Hr' : path r = routeSeg :: path r') by exact Hpath.
      specialize (IH reqSegs r' eq_refl).
      assert (Hstep : comparePaths (reqSeg :: reqSegs) r
                      = match requestSegment (reqSeg :: reqSegs) r 0 with
                        | Some c => c
                        | None => comparePaths reqSegs r'
                        end).
      { unfold comparePaths. rewrite Hpath. cbn [length Nat.min seq forRange].
        destruct (requestSegment (reqSeg :: reqSegs) r 0); [reflexivity|].
        rewrite forRange_shift.
        rewrite (forRange_ext _ (requestSegment reqSegs r'))
          by (intros i; now apply (requestSegment_tail reqSeg routeSeg)).
        cbn [path r']. destruct (forRange _ _); [reflexivity|lia]. }
      rewrite Hstep. unfold requestSegment. rewrite Hpath. cbn [length].
      change ((routeSeg :: routeSegs) !!! 0%nat) with routeSeg.
      change ((reqSeg :: reqSegs) !!! 0%nat) with reqSeg.
      destruct (Z.eqb_spec (Z.of_nat 0) (Z.of_nat (S (length routeSegs)) - 1))
        as [Hlast|Hlast]; cbn [andb].
      * assert (routeSegs = []) as -> by (destruct routeSegs; [reflexivity|cbn in Hlast; lia]).
        destruct (String.eqb_spec routeSeg "{*}") as [->|Hstar].
        { split; [intros _; left; split; reflexivity|reflexivity]. }
        destruct (varSeg routeSeg) eqn:Hvar.
        { rewrite IH. split; [intros H; right; split; [now left|exact H]|].
          intros [[_ H]|[_ H]]; [contradiction|exact H]. }
        destruct (Z.eqb_spec (GoStrings.Compare reqSeg routeSeg) 0) as [Hc|Hc];
          cbn [negb].
        { rewrite IH. apply Compare_eq_0 in Hc. split.
          - intros H. right. split; [now right|exact H].
          - intros [[_ H]|[_ H]]; [contradiction|exact H]. }
        split; [contradiction|].
        intros [[_ H]|[[H|H] _]]; [contradiction|discriminate|].
        apply Compare_eq_0 in H. contradiction.
      * assert (Hne : routeSegs <> []) by (intros ->; cbn in Hlast; lia).
        destruct (varSeg routeSeg) eqn:Hvar.
        { rewrite IH. split; [intros H; right; split; [now left|exact H]|].
          intros [[H _]|[_ H]]; [contradiction|exact H]. }
        destruct (Z.eqb_spec (GoStrings.Compare reqSeg routeSeg) 0) as [Hc|Hc];
          cbn [negb].
        { rewrite IH. apply Compare_eq_0 in Hc. split.
          - intros H. right. split; [now right|exact H].
          - intros [[H _]|[_ H]]; [contradiction|exact H]. }
        split; [contradiction|].
        intros [[H _]|[[H|H] _]]; [contradiction|discriminate|].
        apply Compare_eq_0 in H. contradiction.
Qed.

End RequestMatch.

(** X18. A request compares equal to a route exactly when its method, its
    scheme ([https] with TLS, [http] without) and its host are those of the
    route and the segments of its request URI are matched by the path of the
    route. *)
Theorem compareRequestRoute_zero (url_EscapedPath : url.URL -> string)
    (req : http.Request) (r : muxRoute) :
  compareRequestRoute url_EscapedPath req r = 0 <->
  http.Method req = method r
  /\ (if http.TLS req then "https"%string else "http"%string) = scheme r
  /\ http.Host req = host r
  /\ segmentsMatch (splitPathSegs (url_RequestURI url_EscapedPath (http.URL req)))
       (path r).
Proof.
  pose proof (comparePaths_zero (path r)
                (splitPathSegs (url_RequestURI url_EscapedPath (http.URL req)))
                r eq_refl) as Hpaths.
  pose proof (compareMethodSchemeHost_zero (http.Method req) (method r)
                (if http.TLS req then "https"%string else "http"%string) (scheme r)
                (http.Host req) (host r)) as Hfields.
  unfold compareRequestRoute. cbv zeta. unfold comparePaths in Hpaths.
  match goal with
  | |- context [negb (?c =? 0)] => destruct (Z.eqb_spec c 0) as [Hc|Hc]
  end; cbn [negb]; tauto.
Qed.

(** ** Dispatch over a sorted table *)

(** X19. On a table that is sorted for the request, [ServeHTTP] calls the
    handler of the first entry of the whole table that both compares equal to
    the request and accepts its query; when the table has no such entry it
    calls the fallback with the [NotFoundHandler] of the [Mux]. *)
Theorem ServeHTTP_sorted (url_Query : url.URL -> url_Values)
    (url_EscapedPath : url.URL -> string) (m : Mux) (req : http.Request) :
  sortedFor (length (entries m))
    (fun i => compareRequestRoute url_EscapedPath req (route (entries m !!! i))) ->
  match ServeHTTP url_Query url_EscapedPath m req with
  | servedBy h =>
      exists k e,
        entries m !! k = Some e /\ handler e = h
        /\ compareRequestRoute url_EscapedPath req (route e) = 0
        /\ Acceptable (query (route e)) (url_Query (http.URL req)) = true
        /\ forall j e', (j < k)%nat -> entries m !! j = Some e' ->
             compareRequestRoute url_EscapedPath req (route e') = 0 ->
             Acceptable (query (route e')) (url_Query (http.URL req)) = false
  | notFound fallback =>
      fallback = NotFoundHandler m
      /\ forall e', e' ∈ entries m ->
           compareRequestRoute url_EscapedPath req (route e') = 0 ->
           Acceptable (query (route e')) (url_Query (http.URL req)) = false
  end.
Proof.
  intros Hsorted. unfold ServeHTTP.
  destruct (searchRange _ _) as [[lo hi] found] eqn:Hsearch.
  destruct (searchRange_sorted_range _ _ _ _ _ Hsorted Hsearch) as [Hrange Hzero].
  destruct (searchRange_found _ _ _ _ _ Hsearch) as (Hb & _).
  destruct found; cbn [negb].
  - destruct (firstAcceptable _ _) as [e|] eqn:Hfirst.
    + apply firstAcceptable_Some in Hfirst as (k & Hk & Hacc & Hbefore).
      apply lookup_take_Some in Hk as [Hk Hlt]. rewrite lookup_drop in Hk.
      exists (lo + k)%nat, e. split; [exact Hk|]. split; [reflexivity|].
      split; [|split; [exact Hacc|]].
      * rewrite <- (list_lookup_total_correct _ _ _ Hk).
        apply (Hrange (lo + k)%nat); lia.
      * intros j e' Hj He' Hcmp.
        pose proof (lookup_lt_Some _ _ _ He') as Hjn.
        rewrite <- (list_lookup_total_correct _ _ _ He') in Hcmp.
        apply (Hrange j Hjn) in Hcmp.
        apply (Hbefore (j - lo)%nat); [lia|].
        rewrite lookup_take_lt by lia. rewrite lookup_drop.
        now replace (lo + (j - lo))%nat with j by lia.
    + split; [reflexivity|]. intros e' He' Hcmp.
      apply list_elem_of_lookup in He' as [j He'].
      pose proof (lookup_lt_Some _ _ _ He') as Hjn.
      rewrite <- (list_lookup_total_correct _ _ _ He') in Hcmp.
      apply (Hrange j Hjn) in Hcmp.
      apply (firstAcceptable_None _ _ Hfirst).
      apply (list_elem_of_lookup_2 _ (j - lo)%nat).
      rewrite lookup_take_lt by lia. rewrite lookup_drop.
      now replace (lo + (j - lo))%nat with j by lia.
  - split; [reflexivity|]. intros e' He' Hcmp. exfalso.
    apply list_elem_of_lookup in He' as [j He'].
    pose proof (lookup_lt_Some _ _ _ He') as Hjn.
    rewrite <- (list_lookup_total_correct _ _ _ He') in Hcmp.
    assert (false = true); [|discriminate]. apply Hzero. eauto.
Qed.

(** The table of [/{b}/c] and [/{a}/x], and the request for [/q/x]. *)
Lemma ServeHTTP_sorted_witness :
  exists k e,
    entries Examples.varTable2 !! k = Some e /\ handler e = http.handlerRef 1
    /\ compareRequestRoute Plain.EscapedPath (Examples.get "/q/x" "") (route e) = 0
    /\ Acceptable (query (route e)) (Plain.Query (http.URL (Examples.get "/q/x" "")))
       = true
    /\ forall j e', (j < k)%nat -> entries Examples.varTable2 !! j = Some e' ->
         compareRequestRoute Plain.EscapedPath (Examples.get "/q/x" "") (route e') = 0 ->
         Acceptable (query (route e')) (Plain.Query (http.URL (Examples.get "/q/x" "")))
         = false.
Proof.
  assert (Hserved : ServeHTTP Plain.Query Plain.EscapedPath Examples.varTable2
                      (Examples.get "/q/x" "") = servedBy (http.handlerRef 1))
    by (vm_compute; reflexivity).
  pose proof (ServeHTTP_sorted Plain.Query Plain.EscapedPath Examples.varTable2
                (Examples.get "/q/x" "")) as H.
  rewrite Hserved in H. apply H.
  intros a b Hab.
  assert (Hlen : length (entries Examples.varTable2) = 2%nat) by (vm_compute; reflexivity).
  rewrite Hlen in Hab.
  destruct a as [|[|a]]; destruct b as [|[|b]]; try lia;
    (split; intros Ha; vm_compute in Ha |- *; congruence).
Defined.

(** ** Removing what was registered *)

(** X20. After a [Handle] that succeeded, [RemoveHandler] for the same
    method and pattern gives the table back as it was, when the new table is
    sorted for the Static comparison with the route and no older entry has
    that very route. *)
Theorem Handle_then_RemoveHandler (url_Parse : string -> option url.URL)
    (url_Query : url.URL -> url_Values) (m m' : Mux) (httpMethod urlPattern : string)
    (handler : option http.Handler) (r : muxRoute) :
  Handle url_Parse url_Query m httpMethod urlPattern handler = (None, m') ->
  newMuxRoute url_Parse url_Query httpMethod urlPattern = Ok r ->
  sortedFor (length (entries m'))
    (fun i => compareStaticRoutes r (route (entries m' !!! i))) ->
  (forall e, e ∈ entries m -> compareStaticRoutes r (route e) <> 0) ->
  RemoveHandler url_Parse url_Query m' httpMethod urlPattern = (None, m).
Proof.
  intros Hhandle Hr Hsorted Hfresh.
  destruct (Handle_cases url_Parse url_Query m httpMethod urlPattern handler)
    as [(e & _ & H)|(r0 & Hr0 & [[_ H]|(h & i & hi & found & -> & Hsearch & H)])];
    try congruence.
  assert (r0 = r) as -> by congruence.
  rewrite Hhandle in H. destruct found; [discriminate|]. injection H as ->.
  pose proof (searchRange_bounds _ _ _ _ _ Hsearch) as Hb.
  cbn [entries] in Hsorted.
  destruct (RemoveHandler_cases url_Parse url_Query
              {| NotFoundHandler := NotFoundHandler m;
                 entries := take i (entries m) ++ {| route := r; handler := h |}
                            :: drop i (entries m) |} httpMethod urlPattern)
    as [(e & He & _)|(r0 & lo & hi' & found & Hr0' & Hsearch' & ->)]; [congruence|].
  assert (r0 = r) as -> by congruence.
  cbn [entries NotFoundHandler] in Hsearch' |- *.
  set (table := take i (entries m) ++ {| route := r; handler := h |} :: drop i (entries m))
    in *.
  assert (Hlen : length table = S (length (entries m))).
  { unfold table. rewrite length_app, length_take_le by lia. cbn [length].
    rewrite length_drop. lia. }
  assert (Hat : table !! i = Some {| route := r; handler := h |}).
  { unfold table. rewrite list_lookup_middle; [reflexivity|].
    rewrite length_take_le; lia. }
  destruct (searchRange_sorted_range _ _ _ _ _ Hsorted Hsearch') as [Hrange Hzero].
  assert (Hi : compareStaticRoutes r (route (table !!! i)) = 0).
  { rewrite (list_lookup_total_correct _ _ _ Hat). apply compareStaticRoutes_refl. }
  assert (Hfound : found = true) by (apply Hzero; exists i; split; [lia|exact Hi]).
  subst found.
  assert (Hin : (lo <= i < hi')%nat) by (apply Hrange; [lia|exact Hi]).
  assert (lo = i) as ->.
  { destruct (decide (lo = i)) as [|Hne]; [assumption|exfalso].
    assert (Hlo : compareStaticRoutes r (route (table !!! lo)) = 0)
      by (apply Hrange; lia).
    apply (Hfresh (table !!! lo)); [|exact Hlo].
    apply (list_elem_of_lookup_2 _ lo).
    assert (Hlt : (lo < length (entries m))%nat) by lia.
    rewrite <- (take_drop i (entries m)) at 1.
    rewrite lookup_app_l by (rewrite length_take_le; lia).
    rewrite <- (lookup_app_l _ ({| route := r; handler := h |} :: drop i (entries m)))
      by (rewrite length_take_le; lia).
    apply list_lookup_lookup_total_lt. fold table. lia. }
  f_equal. destruct m as [nf es]. cbn [entries NotFoundHandler] in *. f_equal.
  unfold table. rewrite take_app_length' by (rewrite length_take_le; lia).
  rewrite drop_app_add' by (rewrite length_take_le; lia).
  change (drop 1 ({| route := r; handler := h |} :: drop i es)) with (drop i es).
  apply take_drop.
Qed.

(** Registering [/other] next to [/fixed] and removing it again. *)
Lemma Handle_then_RemoveHandler_witness :
  Examples.remove (snd (Examples.register Examples.fixedTable "GET" "http://h/other" 1))
    "GET" "http://h/other"
  = (None, Examples.fixedTable).
Proof.
  apply (Handle_then_RemoveHandler Plain.Parse Plain.Query Examples.fixedTable
           (snd (Examples.register Examples.fixedTable "GET" "http://h/other" 1))
           "GET" "http://h/other" (Some (http.handlerRef 1))
           (Examples.routeOf ["other"%string] ∅ [])).
  - vm_compute. reflexivity.
  - vm_compute. reflexivity.
  - intros a b Hab.
    assert (Hlen : length (entries (snd (Examples.register Examples.fixedTable
                                           "GET" "http://h/other" 1))) = 2%nat)
      by (vm_compute; reflexivity).
    rewrite Hlen in Hab.
    destruct a as [|[|a]]; destruct b as [|[|b]]; try lia;
      (split; intros Ha; vm_compute in Ha |- *; congruence).
  - intros e He.
    assert (Hentries : entries Examples.fixedTable
                       = [entries Examples.fixedTable !!! 0%nat]) by (vm_compute; reflexivity).
    rewrite Hentries in He. apply list_elem_of_singleton in He as ->.
    vm_compute. discriminate.
Defined.

(** ** The order that sorts a query route *)

(** X21. [Less] is a strict total order on the entries, by name and then by
    value: no entry is before itself, the order is transitive, and two
    entries neither of which is before the other are the same entry. *)
Theorem Less_strict_total_order (a b c : queryEntry) :
  Less a a = false
  /\ (Less a b = true -> Less b c = true -> Less a c = true)
  /\ (Less a b = false -> Less b a = false -> a = b)
  /\ (Less a b = true <->
      String.ltb (Name a) (Name b) = true
      \/ (Name a = Name b /\ String.ltb (Value a) (Value b) = true)).
Proof.
  split; [apply Less_irrefl|]. split; [apply Less_trans|].
  split; [apply Less_incomparable|apply Less_spec].
Qed.
